(** * Recording storage service and authentication service

    A shallow embedding of the two pieces of logic of the cough-recording
    application:

    - the local storage service of the mobile client (JavaScript):
      [saveRecording], [getRecordings], [getRecordingById],
      [updateRecording], [deleteRecording], on top of AsyncStorage and the
      Expo file system;
    - the [UserService] of the Spring backend (Java): [register], [login];
    - the pure parts of the history and record screens: the filter of the
      history list, the window of the waveform meter, the timer display.

    JavaScript objects are finite maps from property names to values
    ([gmap string value]); the asynchronous functions are computations in a
    state-and-exception monad over the device state. *)

From stdpp Require Import gmap strings list pretty.

Set Warnings "-register-all".
Set Default Proof Using "Type".

Local Open Scope string_scope.

(* ===================================================================== *)
(** * JavaScript values and JSON documents *)
(* ===================================================================== *)

Module JS.

(** A JavaScript number.  The storage service never computes with the
    numbers held in a record: it tests them for truthiness ([||]), compares
    them with [===] and serialises them.  Finite numbers are therefore
    represented by an integer payload; the three non-finite numbers are
    kept apart because [JSON.stringify] prints them as [null] and because
    [NaN] is falsy and different from itself. *)
Inductive number :=
  | Finite (z : Z)
  | NaN
  | Infinity (negative : bool).

(** The values that may sit in a metadata object: primitives, arrays and
    plain objects. *)
Inductive value :=
  | VUndefined
  | VNull
  | VBool (b : bool)
  | VNum (n : number)
  | VStr (s : string)
  | VArr (l : list value)
  | VObj (o : gmap string value).

(** The abstract syntax of a JSON text.  There is no [undefined] and no
    non-finite number in JSON. *)
Inductive json :=
  | JNull
  | JBool (b : bool)
  | JNum (z : Z)
  | JStr (s : string)
  | JArr (l : list json)
  | JObj (o : gmap string json).

(** [o.k]: reading a property that the object does not have gives
    [undefined]. *)
Definition get (o : gmap string value) (k : string) : value :=
  default VUndefined (o !! k).

(** ToBoolean. *)
Definition truthy (v : value) : bool :=
  match v with
  | VUndefined | VNull => false
  | VBool b => b
  | VNum (Finite z) => negb (z =? 0)%Z
  | VNum NaN => false
  | VNum (Infinity _) => true
  | VStr s => negb (String.eqb s "")
  | VArr _ | VObj _ => true
  end.

(** [a || b]. *)
Definition or (a b : value) : value := if truthy a then a else b.

Definition number_eq (m n : number) : bool :=
  match m, n with
  | Finite a, Finite b => (a =? b)%Z
  | Infinity a, Infinity b => Bool.eqb a b
  | _, _ => false
  end.

(** [a === b].  Primitives are compared by value, and [NaN] differs from
    itself.  Arrays and objects are compared by reference; in every
    comparison of the storage service one operand is a property of a record
    that [JSON.parse] just built, which is a fresh reference, so the
    comparison of two arrays or two objects is false. *)
Definition strict_eq (a b : value) : bool :=
  match a, b with
  | VUndefined, VUndefined => true
  | VNull, VNull => true
  | VBool x, VBool y => Bool.eqb x y
  | VNum m, VNum n => number_eq m n
  | VStr s, VStr t => String.eqb s t
  | _, _ => false
  end.

(** [{ ...a, ...b }]: the properties of [b] win.  The union of stdpp is
    biased to its left operand. *)
Definition spread (a b : gmap string value) : gmap string value := b ∪ a.

(** [JSON.parse] on the text that denotes [j]. *)
Fixpoint parse (j : json) : value :=
  match j with
  | JNull => VNull
  | JBool b => VBool b
  | JNum z => VNum (Finite z)
  | JStr s => VStr s
  | JArr l => VArr (map parse l)
  | JObj o => VObj (parse <$> o)
  end.

(** [JSON.stringify].  [None] stands for the result [undefined]: a property
    whose value is [undefined] is left out of the enclosing object, and an
    [undefined] array element is printed as [null].  A non-finite number is
    printed as [null]. *)
Fixpoint stringify (v : value) : option json :=
  match v with
  | VUndefined => None
  | VNull => Some JNull
  | VBool b => Some (JBool b)
  | VNum (Finite z) => Some (JNum z)
  | VNum _ => Some JNull
  | VStr s => Some (JStr s)
  | VArr l => Some (JArr (map (λ x, default JNull (stringify x)) l))
  | VObj o => Some (JObj (omap stringify o))
  end.

(** A measure for induction over the nested structure of a document. *)
Fixpoint weight (j : json) : nat :=
  match j with
  | JArr l => S (foldr (λ x acc, weight x + acc) 0 l)
  | JObj o => S (map_fold (λ _ x acc, weight x + acc) 0 o)
  | _ => 0
  end.

(** Whether a value comes back from [JSON.stringify] and [JSON.parse]
    equal to itself under [===]: strings, finite numbers, booleans, [null]
    and [undefined] as a property do; [NaN], the infinities, arrays and
    objects do not. *)
Definition survives_json (v : value) : bool :=
  strict_eq (from_option parse VUndefined (stringify v)) v.

End JS.

(* ===================================================================== *)
(** * The storage service (AsyncStorage and the Expo file system) *)
(* ===================================================================== *)

Module Storage.
Import JS.

(** A recording's metadata is a plain object. *)
Abbreviation record := (gmap string value) (only parsing).

(** What a string kept by AsyncStorage may hold.  The entry that the
    service uses is written by the service alone, always as
    [JSON.stringify] of an array of metadata objects, so a parsable text is
    such an array; [Unparsable] is a non-empty text that [JSON.parse]
    rejects (a damaged entry). *)
Inductive text :=
  | Ledger (docs : list (gmap string json))
  | Unparsable.

(** The calls into the platform. *)
Inductive Api :=
  | GetInfoAsync | MakeDirectoryAsync | CopyAsync | DeleteAsync
  | GetItem | SetItem.

(** What one call of the service draws from outside: the document
    directory of the application, the identifier that [uuidv4()] returns,
    the time that [new Date().toISOString()] returns, and which platform
    calls the platform rejects during the call. *)
Record Env := {
  documentDirectory : string;
  uuid : string;
  clock : string;
  rejects : Api → bool
}.

(** The device: the entries of AsyncStorage and the paths that exist in the
    file system. *)
Record Device := {
  entries : gmap string text;
  paths : gset string
}.

(** What a promise is rejected with. *)
Inductive error :=
  | Error (message : string)
  | PlatformError (api : Api)
  | SyntaxError.

Inductive outcome (A : Type) :=
  | Resolved (a : A)
  | Thrown (e : error).
Arguments Resolved {A} a.
Arguments Thrown {A} e.

(** An [async] function: it reads its environment, changes the device and
    resolves or rejects. *)
Definition Async (A : Type) : Type := Env → Device → Device * outcome A.

#[global] Instance Async_ret : MRet Async := λ A a _ d, (d, Resolved a).

#[global] Instance Async_bind : MBind Async := λ A B f m env d,
  match m env d with
  | (d', Resolved a) => f a env d'
  | (d', Thrown e) => (d', Thrown e)
  end.

Definition throw {A} (e : error) : Async A := λ _ d, (d, Thrown e).

(** [try { body } catch (error) { handler }] *)
Definition try_catch {A} (body : Async A) (handler : error → Async A) : Async A :=
  λ env d,
    match body env d with
    | (d', Thrown e) => handler e env d'
    | r => r
    end.

Definition platform {A} (api : Api) (call : Device → option (Device * A)) : Async A :=
  λ env d,
    if rejects env api then (d, Thrown (PlatformError api))
    else match call d with
         | Some (d', a) => (d', Resolved a)
         | None => (d, Thrown (PlatformError api))
         end.

(** ** The platform *)

Definition uuidv4 : Async string := λ env d, (d, Resolved (uuid env)).

Definition Date_toISOString : Async string := λ env d, (d, Resolved (clock env)).

Definition FileSystem_documentDirectory : Async string :=
  λ env d, (d, Resolved (documentDirectory env)).

(** [(await FileSystem.getInfoAsync(path)).exists] *)
Definition FileSystem_getInfoAsync (path : string) : Async bool :=
  platform GetInfoAsync (λ d, Some (d, bool_decide (path ∈ paths d))).

Definition FileSystem_makeDirectoryAsync (path : string) : Async unit :=
  platform MakeDirectoryAsync
    (λ d, Some ({| entries := entries d; paths := {[path]} ∪ paths d |}, tt)).

(** The copy fails when the source does not exist. *)
Definition FileSystem_copyAsync (from to : string) : Async unit :=
  platform CopyAsync
    (λ d, if bool_decide (from ∈ paths d)
          then Some ({| entries := entries d; paths := {[to]} ∪ paths d |}, tt)
          else None).

(** The deletion fails when its argument is not the path of something that
    exists. *)
Definition FileSystem_deleteAsync (uri : value) : Async unit :=
  platform DeleteAsync
    (λ d, match uri with
          | VStr p =>
              if bool_decide (p ∈ paths d)
              then Some ({| entries := entries d; paths := paths d ∖ {[p]} |}, tt)
              else None
          | _ => None
          end).

(** [AsyncStorage.getItem(key)]: [None] is [null]. *)
Definition AsyncStorage_getItem (key : string) : Async (option text) :=
  platform GetItem (λ d, Some (d, entries d !! key)).

Definition AsyncStorage_setItem (key : string) (t : text) : Async unit :=
  platform SetItem
    (λ d, Some ({| entries := <[key := t]> (entries d); paths := paths d |}, tt)).

(** [JSON.parse(t)] *)
Definition JSON_parse (t : text) : Async (list record) :=
  match t with
  | Ledger docs => mret ((λ o : gmap string json, parse <$> o) <$> docs)
  | Unparsable => throw SyntaxError
  end.

(** [JSON.stringify(recordings)] of an array of objects. *)
Definition JSON_stringify (recordings : list record) : text :=
  Ledger ((λ r : record, omap stringify r) <$> recordings).

(** ** The service *)

Definition RECORDINGS_DIRECTORY : Async string :=
  dir ← FileSystem_documentDirectory; mret (dir ++ "recordings/").

Definition RECORDINGS_METADATA_KEY : string := "recordings".

Definition ensureDirectoryExists : Async unit :=
  dir ← RECORDINGS_DIRECTORY;
  dirInfo_exists ← FileSystem_getInfoAsync dir;
  if negb dirInfo_exists then FileSystem_makeDirectoryAsync dir else mret tt.

Definition initialize : Async unit := ensureDirectoryExists.

(** The parameter [metadata] defaults to the empty object. *)
Definition saveRecording (uri : string) (metadata : record) : Async record :=
  _ ← ensureDirectoryExists;
  id ← uuidv4;
  let filename := "recording_" ++ id ++ ".m4a" in
  dir ← RECORDINGS_DIRECTORY;
  let destinationUri := dir ++ filename in
  try_catch
    (_ ← FileSystem_copyAsync uri destinationUri;
     createdAt ← Date_toISOString;
     let recording : record :=
       spread
         {[ "id" := VStr id;
            "filename" := VStr filename;
            "uri" := VStr destinationUri;
            "createdAt" := VStr createdAt;
            "duration" := or (get metadata "duration") (VNum (Finite 0));
            "size" := or (get metadata "size") (VNum (Finite 0));
            "analysisResult" := VNull ]}
         metadata in
     existingRecordingsJson ← AsyncStorage_getItem RECORDINGS_METADATA_KEY;
     existingRecordings ←
       match existingRecordingsJson with
       | Some t => JSON_parse t
       | None => mret []
       end;
     let updatedRecordings := recording :: existingRecordings in
     _ ← AsyncStorage_setItem RECORDINGS_METADATA_KEY (JSON_stringify updatedRecordings);
     mret recording)
    (λ _, throw (Error "Failed to save recording")).

Definition getRecordings : Async (list record) :=
  try_catch
    (recordingsJson ← AsyncStorage_getItem RECORDINGS_METADATA_KEY;
     match recordingsJson with
     | Some t => JSON_parse t
     | None => mret []
     end)
    (λ _, mret []).

(** [recording => recording.id === id] *)
Definition has_id (id : value) (recording : record) : bool :=
  strict_eq (get recording "id") id.

(** The result [None] is [null]. *)
Definition getRecordingById (id : value) : Async (option record) :=
  try_catch
    (recordings ← getRecordings;
     mret (List.find (has_id id) recordings))
    (λ _, mret None).

(** The result [None] is [undefined]. *)
Definition updateRecording (id : value) (updates : record) : Async (option record) :=
  try_catch
    (recordings ← getRecordings;
     let updatedRecordings :=
       (λ recording, if has_id id recording then spread recording updates else recording)
         <$> recordings in
     _ ← AsyncStorage_setItem RECORDINGS_METADATA_KEY (JSON_stringify updatedRecordings);
     mret (List.find (has_id id) updatedRecordings))
    (λ _, throw (Error "Failed to update recording")).

Definition deleteRecording (id : value) : Async bool :=
  try_catch
    (recordings ← getRecordings;
     match List.find (has_id id) recordings with
     | None => throw (Error "Recording not found")
     | Some recordingToDelete =>
         _ ← FileSystem_deleteAsync (get recordingToDelete "uri");
         let updatedRecordings :=
           List.filter (λ r, negb (has_id id r)) recordings in
         _ ← AsyncStorage_setItem RECORDINGS_METADATA_KEY (JSON_stringify updatedRecordings);
         mret true
     end)
    (λ _, throw (Error "Failed to delete recording")).

(** ** Observations used in the statements *)

(** The persisted ledger: the array under the key of the service, empty
    when the entry was never written or cannot be parsed. *)
Definition ledger (d : Device) : list (gmap string json) :=
  match entries d !! RECORDINGS_METADATA_KEY with
  | Some (Ledger docs) => docs
  | _ => []
  end.

(** The persisted form of a record held in memory. *)
Definition persisted (r : record) : gmap string json := omap stringify r.

(** The record that [JSON.parse] builds from a persisted one, and the array
    that it builds from the persisted ledger. *)
Definition revived (o : gmap string json) : record := parse <$> o.

Definition recordings_of (d : Device) : list record := revived <$> ledger d.

(** The device after the entry of the service was overwritten with [t]. *)
Definition written (t : text) (d : Device) : Device :=
  {| entries := <[RECORDINGS_METADATA_KEY := t]> (entries d); paths := paths d |}.

(** The [id] properties of the persisted ledger, in order; [None] where a
    record has no such property. *)
Definition ids (d : Device) : list (option json) := (λ o : gmap string json, o !! "id") <$> ledger d.

(** A sequence of [saveRecording] calls, each in its own environment.  The
    result lists the returned records in call order when every call
    resolved, and is [None] as soon as one call rejects. *)
Fixpoint saveAll (calls : list (Env * string * record)) (d : Device)
  : Device * option (list record) :=
  match calls with
  | [] => (d, Some [])
  | (env, uri, metadata) :: rest =>
      match saveRecording uri metadata env d with
      | (d', Resolved r) =>
          match saveAll rest d' with
          | (d'', Some rs) => (d'', Some (r :: rs))
          | (d'', None) => (d'', None)
          end
      | (d', Thrown _) => (d', None)
      end
  end.

(** The four properties that [saveRecording] generates. *)
Definition system_fields : list string := ["id"; "filename"; "uri"; "createdAt"].

Definition system_value (env : Env) (k : string) : value :=
  let filename := "recording_" ++ uuid env ++ ".m4a" in
  if String.eqb k "id" then VStr (uuid env)
  else if String.eqb k "filename" then VStr filename
  else if String.eqb k "uri" then VStr ((documentDirectory env ++ "recordings/") ++ filename)
  else if String.eqb k "createdAt" then VStr (clock env)
  else VUndefined.

End Storage.

(* ===================================================================== *)
(** * The user service of the backend *)
(* ===================================================================== *)

Module Auth.

(** The document class of the collection of users.  The accessors that
    Lombok generates keep their names.  [id] and [role] carry no validation
    annotation and are absent ([null]) in the usual request body. *)
Record UserModel := {
  getId : option string;
  getUsername : string;
  getEmail : string;
  getPassword : string;
  getRole : option string
}.

Definition setPassword (password : string) (u : UserModel) : UserModel :=
  {| getId := getId u; getUsername := getUsername u; getEmail := getEmail u;
     getPassword := password; getRole := getRole u |}.

Definition setRole (role : string) (u : UserModel) : UserModel :=
  {| getId := getId u; getUsername := getUsername u; getEmail := getEmail u;
     getPassword := getPassword u; getRole := Some role |}.

(** [ResponseEntity<String>] *)
Record ResponseEntity := {
  statusCode : nat;
  body : string
}.

Definition ResponseEntity_status (code : nat) (b : string) : ResponseEntity :=
  {| statusCode := code; body := b |}.

Definition ResponseEntity_ok (b : string) : ResponseEntity :=
  {| statusCode := 200; body := b |}.

(** The collaborators that Spring injects into the service.  They are
    interfaces of the framework or of the application. *)
Class PasswordEncoder := {
  encode : string → string;
  matches : string → string → bool
}.

Class JwtUtil := {
  generateToken : string → string
}.

Class UserRepository (Repo : Type) := {
  existsByEmail : Repo → string → bool;
  findByEmail : Repo → string → option UserModel;
  save : Repo → UserModel → Repo
}.

Section UserService.
Context {passwordEncoder : PasswordEncoder} {jwtUtil : JwtUtil}.
Context {Repo : Type} {userRepository : UserRepository Repo}.

Definition register (user : UserModel) (repo : Repo) : Repo * ResponseEntity :=
  if existsByEmail repo (getEmail user)
  then (repo, ResponseEntity_status 400 "Email already in use")
  else
    let user := setPassword (encode (getPassword user)) user in
    let user := setRole "ROLE_USER" user in
    (save repo user, ResponseEntity_status 201 "User registered successfully").

Definition login (user : UserModel) (repo : Repo) : ResponseEntity :=
  match findByEmail repo (getEmail user) with
  | None => ResponseEntity_status 401 "Invalid email or password"
  | Some existingUser =>
      if negb (matches (getPassword user) (getPassword existingUser))
      then ResponseEntity_status 401 "Invalid email or password"
      else ResponseEntity_ok (generateToken (getEmail existingUser))
  end.
End UserService.

(** ** Collaborators to run the service on concrete inputs *)

(** An encoder that prefixes the password, in the manner of a delegating
    encoder's identifier. *)
Definition PrefixEncoder : PasswordEncoder := {|
  encode raw := "{enc}" ++ raw;
  matches raw encoded := String.eqb encoded ("{enc}" ++ raw)
|}.

Definition SubjectToken : JwtUtil := {|
  generateToken subject := "jwt." ++ subject
|}.

Definition has_email (email : string) (u : UserModel) : bool :=
  String.eqb (getEmail u) email.

(** A repository that keeps the documents in a list, in insertion order. *)
Definition ListRepository : UserRepository (list UserModel) := {|
  existsByEmail repo email := existsb (has_email email) repo;
  findByEmail repo email := List.find (has_email email) repo;
  save repo u := (repo ++ [u])%list
|}.

End Auth.

(* ===================================================================== *)
(** * Where the service keeps its files *)
(* ===================================================================== *)

Module Layout.
Import Storage.

(** The value of the constant [RECORDINGS_DIRECTORY]. *)
Definition directory (env : Env) : string := documentDirectory env ++ "recordings/".

(** The value of [destinationUri] in a call of [saveRecording]. *)
Definition destination (env : Env) : string :=
  directory env ++ "recording_" ++ uuid env ++ ".m4a".

(** The device after the file system gained, or lost, one path. *)
Definition with_path (p : string) (d : Device) : Device :=
  {| entries := entries d; paths := {[p]} ∪ paths d |}.

Definition without_path (p : string) (d : Device) : Device :=
  {| entries := entries d; paths := paths d ∖ {[p]} |}.

(** The object literal of [saveRecording]. *)
Definition literal (env : Env) (metadata : gmap string JS.value) : gmap string JS.value :=
  JS.spread
    {[ "id" := JS.VStr (uuid env);
       "filename" := JS.VStr ("recording_" ++ uuid env ++ ".m4a");
       "uri" := JS.VStr (destination env);
       "createdAt" := JS.VStr (clock env);
       "duration" := JS.or (JS.get metadata "duration") (JS.VNum (JS.Finite 0));
       "size" := JS.or (JS.get metadata "size") (JS.VNum (JS.Finite 0));
       "analysisResult" := JS.VNull ]}
    metadata.

(** A record of the ledger after [updateRecording] merged [updates] into it
    and the ledger was printed and parsed again. *)
Definition merged (updates r : gmap string JS.value) : gmap string JS.value :=
  revived (persisted (JS.spread r updates)).

(** The record that [updateRecording] persists in the place of [o]. *)
Definition rewritten (id : JS.value) (updates : gmap string JS.value)
  (o : gmap string JS.json) : gmap string JS.json :=
  persisted (if has_id id (revived o) then JS.spread (revived o) updates else revived o).

End Layout.

(* ===================================================================== *)
(** * The screens *)
(* ===================================================================== *)

Module Screens.
Import JS.

(** ** History screen *)

(** The body of the memo [filteredRecordings]: a [switch] on the filter
    that is selected. *)
Definition filteredRecordings (filterType : string) (recordings : list (gmap string value))
  : list (gmap string value) :=
  if String.eqb filterType "analyzed"
  then List.filter (λ r, truthy (get r "analyzed")) recordings
  else if String.eqb filterType "unanalyzed"
  then List.filter (λ r, negb (truthy (get r "analyzed"))) recordings
  else recordings.

(** ** Waveform meter *)

Definition maxBars : nat := 30.

(** [l.slice(start)] for a start within the array. *)
Definition slice {A} (start : nat) (l : list A) : list A := drop start l.

(** The function that the meter passes to [setLevels] every 100 ms; the
    levels themselves are opaque to it. *)
Definition pushLevel {A} (newLevel : A) (prev : list A) : list A :=
  let updated := (prev ++ [newLevel])%list in
  if (maxBars <? length updated)%nat
  then slice (length updated - maxBars) updated
  else updated.

(** ** Record screen *)

(** [Number.isSafeInteger(n)] for a whole number: the whole numbers that a
    double holds exactly. *)
Definition isSafeInteger (n : Z) : bool := (Z.abs n <? 2 ^ 53)%Z.

(** [n.toString()] on a safe integer, where JavaScript prints every digit.
    Beyond the safe integers the digits that JavaScript prints are those
    of the nearest double, not those of the whole number, and the model
    says nothing ([None]). *)
Definition toString (n : Z) : option string :=
  if isSafeInteger n then Some (pretty n) else None.

(** [s.padStart(targetLength, padString)] *)
Definition padStart (targetLength : nat) (padString : string) (s : string) : string :=
  let missing := (targetLength - String.length s)%nat in
  if String.eqb padString "" then s
  else
    let filler := take missing (mjoin (replicate missing (String.list_ascii_of_string padString))) in
    String.string_of_list_ascii filler ++ s.

(** The timer counts whole seconds.  On a safe integer the division in
    doubles followed by [Math.floor] is the floored quotient (the rounding
    error of the quotient is below 1/60) and [%] is exact: the remainder
    that takes the sign of the dividend.  Outside the safe integers the
    model says nothing ([None]). *)
Definition formatTime (seconds : Z) : option string :=
  if isSafeInteger seconds then
    mins ← toString (seconds `div` 60)%Z;
    secs ← toString (Z.rem seconds 60);
    Some (padStart 2 "0" mins ++ ":" ++ padStart 2 "0" secs)
  else None.

End Screens.

(* ===================================================================== *)
(** * Concrete inputs *)
(* ===================================================================== *)

Module Sample.
Import JS Storage Auth.

Definition quiet (uuid clock : string) : Env := {|
  documentDirectory := "file:///data/";
  Storage.uuid := uuid;
  Storage.clock := clock;
  rejects := λ _, false
|}.

Definition failing (api : Api) (uuid clock : string) : Env := {|
  documentDirectory := "file:///data/";
  Storage.uuid := uuid;
  Storage.clock := clock;
  rejects := λ a, match a, api with
                  | GetInfoAsync, GetInfoAsync | MakeDirectoryAsync, MakeDirectoryAsync
                  | CopyAsync, CopyAsync | DeleteAsync, DeleteAsync
                  | GetItem, GetItem | SetItem, SetItem => true
                  | _, _ => false
                  end
|}.

(** A device on which nothing was recorded yet; one temporary file waits in
    the cache. *)
Definition fresh : Device := {|
  entries := ∅;
  paths := {[ "file:///cache/take.m4a" ]}
|}.

(** A device whose ledger holds the records [B] and [A], newest first.  The
    blob of [B] exists, the blob of [A] is gone, and one temporary file
    waits in the cache. *)
Definition two : Device := {|
  entries :=
    {[ RECORDINGS_METADATA_KEY :=
         Ledger [ {[ "id" := JStr "B"; "uri" := JStr "file:///data/recordings/recording_B.m4a";
                     "filename" := JStr "recording_B.m4a";
                     "createdAt" := JStr "2024-05-02T08:00:00.000Z" ]};
                  {[ "id" := JStr "A"; "uri" := JStr "file:///data/recordings/recording_A.m4a";
                     "filename" := JStr "recording_A.m4a";
                     "createdAt" := JStr "2024-05-01T08:00:00.000Z" ]} ] ]};
  paths := {[ "file:///data/recordings/"; "file:///data/recordings/recording_B.m4a";
              "file:///cache/take.m4a" ]}
|}.

Definition alice : UserModel := {|
  getId := Some "1"; getUsername := "alice"; getEmail := "alice@example.org";
  getPassword := "{enc}wonderland"; getRole := Some "ROLE_USER"
|}.

Definition request (email password : string) (role : option string) : UserModel := {|
  getId := None; getUsername := "someone"; getEmail := email;
  getPassword := password; getRole := role
|}.

End Sample.

(* ===================================================================== *)
(** * JSON: parsing what was printed *)
(* ===================================================================== *)

Section json_facts.
Import JS.

Lemma weight_elem (l : list json) (x : json) :
  x ∈ l → weight x < weight (JArr l).
Proof.
  induction 1 as [x l|x y l _ IH]; simpl in *; lia.
Qed.

Lemma weight_lookup (o : gmap string json) (k : string) (x : json) :
  o !! k = Some x → weight x < weight (JObj o).
Proof.
  simpl. revert k x.
  induction o as [|i y o Hi Hfold IH] using map_first_key_ind; intros k x.
  - by rewrite lookup_empty.
  - rewrite map_fold_insert_first_key by done.
    rewrite lookup_insert. case_decide.
    + intros [= ->]. lia.
    + intros Hk. specialize (IH _ _ Hk). lia.
Qed.

(** Induction over a document, with the hypothesis available for every
    element of an array and every property of an object. *)
Lemma json_nested_ind (P : json → Prop) :
  P JNull → (∀ b, P (JBool b)) → (∀ z, P (JNum z)) → (∀ s, P (JStr s)) →
  (∀ l, Forall P l → P (JArr l)) →
  (∀ o, map_Forall (λ _, P) o → P (JObj o)) →
  ∀ j, P j.
Proof.
  intros Hnull Hbool Hnum Hstr Harr Hobj j.
  remember (weight j) as n eqn:Hn. revert j Hn.
  induction n as [n IH] using lt_wf_ind. intros j ->.
  destruct j; auto.
  - apply Harr, Forall_forall. intros x Hx.
    eapply IH; [|done]. by apply weight_elem.
  - apply Hobj. intros k x Hk.
    eapply IH; [|done]. by eapply weight_lookup.
Qed.

(** [JSON.stringify(JSON.parse(t))] prints the document of [t]. *)
Lemma stringify_parse (j : json) : stringify (parse j) = Some j.
Proof.
  induction j as [| | | |l IH|o IH] using json_nested_ind; simpl; try done.
  - do 2 f_equal. rewrite map_map.
    induction IH as [|x l Hx _ IHl]; simpl; [done|].
    by rewrite Hx, IHl.
  - do 2 f_equal. apply map_eq. intros k.
    rewrite lookup_omap, lookup_fmap.
    destruct (o !! k) as [x|] eqn:Hk; simpl; [|done].
    by apply (IH k x).
Qed.

Lemma persisted_revived (o : gmap string json) :
  Storage.persisted (Storage.revived o) = o.
Proof.
  unfold Storage.persisted, Storage.revived.
  apply map_eq. intros k. rewrite lookup_omap, lookup_fmap.
  destruct (o !! k) as [x|]; simpl; [|done]. apply stringify_parse.
Qed.

Lemma lookup_spread (a b : gmap string value) (k : string) :
  spread a b !! k = match b !! k with Some v => Some v | None => a !! k end.
Proof.
  unfold spread. rewrite lookup_union.
  destruct (b !! k), (a !! k); done.
Qed.

Lemma get_revived (o : gmap string json) (k : string) :
  get (Storage.revived o) k = from_option parse VUndefined (o !! k).
Proof.
  unfold get, Storage.revived. rewrite lookup_fmap. by destruct (o !! k).
Qed.

Lemma strict_eq_string (v : value) (s : string) :
  strict_eq v (VStr s) = true ↔ v = VStr s.
Proof.
  destruct v as [| | |n|t| |]; simpl; try (split; [done|discriminate]).
  rewrite String.eqb_eq. split; [by intros ->|by intros [= ->]].
Qed.
End json_facts.

(* ===================================================================== *)
(** * The storage service, operation by operation *)
(* ===================================================================== *)

Section storage_facts.
Import JS Storage.

Ltac run :=
  unfold mbind, mret, Async_bind, Async_ret, try_catch, throw, platform in *;
  simpl in *.

Lemma stringify_revived (docs : list (gmap string json)) :
  JSON_stringify (revived <$> docs) = Ledger docs.
Proof.
  unfold JSON_stringify. f_equal.
  rewrite <- list_fmap_compose.
  rewrite <- (list_fmap_id docs) at 2.
  apply list_fmap_ext. intros _ o _. apply persisted_revived.
Qed.

Lemma stringify_cons (r : record) (docs : list (gmap string json)) :
  JSON_stringify (r :: (revived <$> docs)) = Ledger (persisted r :: docs).
Proof.
  pose proof (stringify_revived docs) as H.
  unfold JSON_stringify in *. rewrite fmap_cons. injection H as H. by rewrite H.
Qed.

Lemma ledger_written (docs : list (gmap string json)) (d : Device) :
  ledger (written (Ledger docs) d) = docs.
Proof. unfold ledger, written. simpl. by rewrite lookup_insert_eq. Qed.

Lemma lookup_persisted (r : record) (k : string) :
  persisted r !! k = r !! k ≫= stringify.
Proof. unfold persisted. apply lookup_omap. Qed.

(** The read path swallows a rejected read and a damaged entry. *)
Lemma getRecordings_run (env : Env) (d : Device) :
  getRecordings env d
  = (d, Resolved (if rejects env GetItem then [] else recordings_of d)).
Proof.
  unfold getRecordings, AsyncStorage_getItem, recordings_of, ledger, JSON_parse. run.
  destruct (rejects env GetItem); [done|].
  destruct (entries d !! RECORDINGS_METADATA_KEY) as [[docs|]|]; done.
Qed.

Lemma getRecordingById_run (id : value) (env : Env) (d : Device) :
  getRecordingById id env d
  = (d, Resolved (List.find (has_id id)
                    (if rejects env GetItem then [] else recordings_of d))).
Proof.
  unfold getRecordingById. unfold try_catch, mbind, Async_bind.
  by rewrite getRecordings_run.
Qed.

Lemma updateRecording_run (id : value) (updates : record) (env : Env) (d : Device) :
  updateRecording id updates env d
  = let recordings := if rejects env GetItem then [] else recordings_of d in
    let updatedRecordings :=
      (λ r, if has_id id r then spread r updates else r) <$> recordings in
    if rejects env SetItem
    then (d, Thrown (Error "Failed to update recording"))
    else (written (JSON_stringify updatedRecordings) d,
          Resolved (List.find (has_id id) updatedRecordings)).
Proof.
  unfold updateRecording. unfold try_catch, mbind, Async_bind at 1.
  rewrite getRecordings_run. unfold AsyncStorage_setItem. run.
  destruct (rejects env SetItem); done.
Qed.

Lemma deleteRecording_run (id : value) (env : Env) (d : Device) :
  deleteRecording id env d
  = let recordings := if rejects env GetItem then [] else recordings_of d in
    match List.find (has_id id) recordings with
    | None => (d, Thrown (Error "Failed to delete recording"))
    | Some recordingToDelete =>
        match FileSystem_deleteAsync (get recordingToDelete "uri") env d with
        | (d1, Resolved _) =>
            if rejects env SetItem
            then (d1, Thrown (Error "Failed to delete recording"))
            else (written
                    (JSON_stringify (List.filter (λ r, negb (has_id id r)) recordings)) d1,
                  Resolved true)
        | (d1, Thrown _) => (d1, Thrown (Error "Failed to delete recording"))
        end
    end.
Proof.
  unfold deleteRecording. unfold try_catch, mbind, Async_bind at 1.
  rewrite getRecordings_run. simpl.
  destruct (List.find _ _) as [r|]; [|done].
  unfold mbind, Async_bind at 1.
  destruct (FileSystem_deleteAsync _ env d) as [d1 [[]|e]]; [|done].
  unfold AsyncStorage_setItem. run.
  destruct (rejects env SetItem); done.
Qed.

Lemma ensureDirectoryExists_entries (env : Env) (d d' : Device) (o : outcome unit) :
  ensureDirectoryExists env d = (d', o) → entries d' = entries d.
Proof.
  unfold ensureDirectoryExists, RECORDINGS_DIRECTORY, FileSystem_documentDirectory,
    FileSystem_getInfoAsync, FileSystem_makeDirectoryAsync. run.
  destruct (rejects env GetInfoAsync); [by intros [= <- <-]|].
  destruct (bool_decide _); simpl; [by intros [= <- <-]|].
  destruct (rejects env MakeDirectoryAsync); by intros [= <- <-].
Qed.

(** A call of [saveRecording] that resolves returns the object literal of
    the source and has put its persisted form in front of the ledger. *)
Lemma saveRecording_resolved (uri : string) (metadata : record) (env : Env)
  (d d' : Device) (r : record) :
  saveRecording uri metadata env d = (d', Resolved r) →
  r = spread
        {[ "id" := VStr (uuid env);
           "filename" := VStr ("recording_" ++ uuid env ++ ".m4a");
           "uri" := VStr ((documentDirectory env ++ "recordings/")
                          ++ "recording_" ++ uuid env ++ ".m4a");
           "createdAt" := VStr (clock env);
           "duration" := or (get metadata "duration") (VNum (Finite 0));
           "size" := or (get metadata "size") (VNum (Finite 0));
           "analysisResult" := VNull ]}
        metadata
  ∧ ledger d' = persisted r :: ledger d.
Proof.
  unfold saveRecording. unfold mbind at 1. unfold Async_bind at 1.
  destruct (ensureDirectoryExists env d) as [d1 [[]|e]] eqn:Hdir; [|done].
  apply ensureDirectoryExists_entries in Hdir.
  unfold uuidv4, RECORDINGS_DIRECTORY, FileSystem_documentDirectory, Date_toISOString,
    FileSystem_copyAsync, AsyncStorage_getItem, AsyncStorage_setItem. run.
  destruct (rejects env CopyAsync); [done|].
  destruct (bool_decide (uri ∈ paths d1)); [|done]. simpl.
  destruct (rejects env GetItem); [done|].
  rewrite Hdir. unfold ledger at 2.
  destruct (entries d !! RECORDINGS_METADATA_KEY) as [[docs|]|] eqn:Hd; simpl; [| done |].
  - destruct (rejects env SetItem); [done|]. intros [= <- <-]. split; [done|].
    unfold ledger. simpl. rewrite lookup_insert_eq.
    change ((λ o : gmap string json, parse <$> o) <$> docs) with (revived <$> docs).
    by rewrite stringify_cons.
  - destruct (rejects env SetItem); [done|]. intros [= <- <-]. split; [done|].
    unfold ledger. simpl. by rewrite lookup_insert_eq.
Qed.

End storage_facts.

(* ===================================================================== *)
(** * Saving: what the record holds and where it goes *)
(* ===================================================================== *)

Section saving.
Import JS Storage Sample.

Lemma saveRecording_lookup (uri : string) (metadata : record) (env : Env)
  (d d' : Device) (r : record) (k : string) :
  saveRecording uri metadata env d = (d', Resolved r) →
  k ∈ system_fields →
  r !! k = Some (default (system_value env k) (metadata !! k)).
Proof.
  intros Hsave Hk. apply saveRecording_resolved in Hsave as [-> _].
  rewrite lookup_spread.
  destruct (metadata !! k) as [v|]; [done|]. simpl.
  unfold system_fields in Hk.
  repeat (apply elem_of_cons in Hk as [->|Hk]); try done.
  by apply elem_of_nil in Hk.
Qed.

(** C1, as the code has it.  In a call of [saveRecording] that resolves,
    each of [id], [filename], [uri] and [createdAt] of the returned record
    is the generated value when [metadata] has no property of that name,
    and is the caller's value when [metadata] has one: the object literal
    spreads [metadata] last.  The JSON form of the returned record is the
    head of the persisted ledger. *)
Theorem saveRecording_system_fields (uri : string) (metadata : record) (env : Env)
  (d d' : Device) (r : record) (k : string) :
  saveRecording uri metadata env d = (d', Resolved r) →
  k ∈ system_fields →
  (metadata !! k = None → r !! k = Some (system_value env k))
  ∧ (∀ v, metadata !! k = Some v → r !! k = Some v)
  ∧ head (ledger d') = Some (persisted r).
Proof.
  intros Hsave Hk.
  pose proof (saveRecording_lookup _ _ _ _ _ _ _ Hsave Hk) as Hr.
  apply saveRecording_resolved in Hsave as [_ Hl].
  split; [|split].
  - intros Hnone. by rewrite Hr, Hnone.
  - intros v Hv. by rewrite Hr, Hv.
  - by rewrite Hl.
Qed.

Lemma saveRecording_system_fields_witness :
  ∃ d' r,
    saveRecording "file:///cache/take.m4a" {[ "duration" := VNum (Finite 7) ]}
      (quiet "u-1" "2024-05-03T08:00:00.000Z") fresh = (d', Resolved r)
    ∧ r !! "id" = Some (VStr "u-1").
Proof.
  set (env := quiet "u-1" "2024-05-03T08:00:00.000Z").
  destruct (saveRecording "file:///cache/take.m4a" {[ "duration" := VNum (Finite 7) ]}
              env fresh) as [d' [r|e]] eqn:Hsaved; [|by vm_compute in Hsaved].
  exists d', r. split; [done|].
  refine (proj1 (saveRecording_system_fields _ _ env fresh d' r "id" Hsaved _) _).
  - apply list_elem_of_here.
  - reflexivity.
Defined.

(** C1 as stated fails: a caller who passes [{ id: "mine" }] gets a record,
    returned and persisted, whose [id] is ["mine"] and not the generated
    identifier. *)
Lemma saveRecording_caller_id :
  ∃ d' r,
    saveRecording "file:///cache/take.m4a" {[ "id" := VStr "mine" ]}
      (quiet "u-1" "2024-05-03T08:00:00.000Z") fresh = (d', Resolved r)
    ∧ r !! "id" = Some (VStr "mine")
    ∧ r !! "id" ≠ Some (system_value (quiet "u-1" "2024-05-03T08:00:00.000Z") "id")
    ∧ head (ledger d') ≫= (λ o, o !! "id") = Some (JStr "mine").
Proof.
  set (env := quiet "u-1" "2024-05-03T08:00:00.000Z").
  destruct (saveRecording "file:///cache/take.m4a" {[ "id" := VStr "mine" ]} env fresh)
    as [d' [r|e]] eqn:Hsaved; [|by vm_compute in Hsaved].
  exists d', r. split; [done|].
  apply saveRecording_resolved in Hsaved as [-> ->].
  repeat split; try done.
Qed.

(** C3.  After a sequence of [saveRecording] calls that all resolve, the
    persisted ledger lists the new records in the reverse of the call
    order, the most recent first, followed by the records that were there
    before, in their former order. *)
Theorem saveAll_newest_first (calls : list (Env * string * record)) (d d' : Device)
  (rs : list record) :
  saveAll calls d = (d', Some rs) →
  length rs = length calls
  ∧ ledger d' = (rev (persisted <$> rs) ++ ledger d)%list.
Proof.
  revert d rs. induction calls as [|[[env uri] metadata] calls IH]; intros d rs; simpl.
  - by intros [= <- <-].
  - destruct (saveRecording uri metadata env d) as [d1 [r|e]] eqn:Hsave; [|done].
    destruct (saveAll calls d1) as [d2 [rs'|]] eqn:Hrest; [|done].
    intros [= <- <-]. apply IH in Hrest as [Hlen Hrest].
    apply saveRecording_resolved in Hsave as [_ Hsave].
    split; [simpl; by rewrite Hlen|].
    rewrite Hrest, Hsave. simpl. by rewrite <- app_assoc.
Qed.

Lemma saveAll_newest_first_witness :
  ∃ d' a b c,
    saveAll [ (quiet "A" "2024-05-01T08:00:00.000Z", "file:///cache/take.m4a", ∅);
              (quiet "B" "2024-05-02T08:00:00.000Z", "file:///cache/take.m4a", ∅);
              (quiet "C" "2024-05-03T08:00:00.000Z", "file:///cache/take.m4a", ∅) ] fresh
    = (d', Some [a; b; c])
    ∧ ledger d' = [persisted c; persisted b; persisted a].
Proof.
  destruct (saveAll _ fresh) as [d' [rs|]] eqn:Hall; [|by vm_compute in Hall].
  pose proof (saveAll_newest_first _ _ _ _ Hall) as [Hlen Hledger].
  destruct rs as [|a [|b [|c [|]]]]; try done.
  by exists d', a, b, c.
Defined.

End saving.


(* ===================================================================== *)
(** * Looking up, updating and deleting *)
(* ===================================================================== *)

Section lifecycle.
Import JS Storage Layout Sample.

Lemma lookup_revived_persisted (r : record) (k : string) (s : string) :
  r !! k = Some (VStr s) → revived (persisted r) !! k = Some (VStr s).
Proof.
  intros Hr. unfold revived. by rewrite lookup_fmap, lookup_persisted, Hr.
Qed.

Lemma find_filter_negb {A} (p : A → bool) (l : list A) :
  List.find p (List.filter (λ x, negb (p x)) l) = None.
Proof.
  induction l as [|x l IH]; simpl; [done|].
  destruct (p x) eqn:Hp; simpl; [done|]. by rewrite Hp.
Qed.

Lemma find_none_Forall {A} (p : A → bool) (l : list A) :
  Forall (λ x, p x = false) l → List.find p l = None.
Proof.
  induction 1 as [|x l Hx _ IH]; simpl; [done|]. by rewrite Hx.
Qed.

Lemma recordings_of_written (rs : list record) (d : Device) :
  recordings_of (written (JSON_stringify rs) d) = (λ r, revived (persisted r)) <$> rs.
Proof.
  unfold recordings_of, JSON_stringify. rewrite ledger_written.
  by rewrite <- list_fmap_compose.
Qed.

(** Records that come from the ledger go through print and parse
    unchanged. *)
Lemma filter_revived_fixed (p : record → bool) (d : Device) :
  (λ r, revived (persisted r)) <$> List.filter p (recordings_of d)
  = List.filter p (recordings_of d).
Proof.
  unfold recordings_of. induction (ledger d) as [|o l IH]; [done|].
  rewrite fmap_cons. cbn [List.filter].
  destruct (p (revived o)); [|done].
  by rewrite fmap_cons, persisted_revived, IH.
Qed.

Lemma unknown_id_recordings (id : value) (d : Device) :
  Forall (λ o, has_id id (revived o) = false) (ledger d) →
  Forall (λ r, has_id id r = false) (recordings_of d).
Proof.
  unfold recordings_of. intros H. by apply Forall_fmap.
Qed.

Lemma fmap_unknown_id (id : value) (updates : record) (rs : list record) :
  Forall (λ r, has_id id r = false) rs →
  (λ r, if has_id id r then spread r updates else r) <$> rs = rs.
Proof.
  induction 1 as [|r rs Hr _ IH]; [done|].
  by rewrite fmap_cons, Hr, IH.
Qed.

(** What [updateRecording] persists for one record of the ledger, at a
    property that [updates] does not define. *)
Lemma persisted_update_lookup (id : value) (updates : record) (o : gmap string json)
  (k : string) :
  updates !! k = None →
  persisted (if has_id id (revived o) then spread (revived o) updates else revived o) !! k
  = o !! k.
Proof.
  intros Hk. destruct (has_id id (revived o)).
  - rewrite lookup_persisted, lookup_spread, Hk, <- lookup_persisted.
    by rewrite persisted_revived.
  - by rewrite persisted_revived.
Qed.

(** The ledger after [updateRecording], when the read was not rejected:
    untouched when the write is rejected, mapped record by record
    otherwise. *)
Lemma ledger_updateRecording (id : value) (updates : record) (env : Env) (d d' : Device)
  (o : outcome (option record)) :
  updateRecording id updates env d = (d', o) →
  rejects env GetItem = false →
  ledger d' = ledger d
  ∨ ledger d' = (λ o, persisted (if has_id id (revived o)
                                 then spread (revived o) updates else revived o))
                <$> ledger d.
Proof.
  rewrite updateRecording_run. intros Hrun Hread. rewrite Hread in Hrun. simpl in Hrun.
  destruct (rejects env SetItem).
  - left. by injection Hrun as <- _.
  - right. injection Hrun as <- _. unfold JSON_stringify, recordings_of.
    rewrite ledger_written. by rewrite <- !list_fmap_compose.
Qed.

(** A rejected write makes [updateRecording] reject and changes nothing. *)
Lemma updateRecording_rejected_write (id : value) (updates : record) (env : Env)
  (d : Device) :
  rejects env SetItem = true →
  updateRecording id updates env d = (d, Thrown (Error "Failed to update recording")).
Proof. intros Hwrite. by rewrite updateRecording_run, Hwrite. Qed.

(** A rejected read is swallowed by [getRecordings]: [updateRecording] then
    maps over the empty array and writes it back. *)
Lemma updateRecording_rejected_read (id : value) (updates : record) (env : Env)
  (d : Device) :
  rejects env GetItem = true →
  rejects env SetItem = false →
  updateRecording id updates env d = (written (Ledger []) d, Resolved None).
Proof. intros Hread Hwrite. by rewrite updateRecording_run, Hread, Hwrite. Qed.

Example updateRecording_rejected_read_run :
  ledger (updateRecording (VStr "A") ∅ (failing GetItem "" "") two).1 = [].
Proof. by rewrite updateRecording_rejected_read. Qed.

Lemma deleteAsync_thrown (uri : value) (env : Env) (d d1 : Device) (e : error) :
  FileSystem_deleteAsync uri env d = (d1, Thrown e) → d1 = d.
Proof.
  unfold FileSystem_deleteAsync, platform.
  destruct (rejects env DeleteAsync); [by intros [= <- _]|].
  destruct uri as [| | | |p| |]; try by intros [= <- _].
  destruct (bool_decide _); [done|by intros [= <- _]].
Qed.

(** Whatever makes [deleteRecording] reject, the caller sees one and the
    same error: the handler of the function replaces the error that was
    thrown, the one for a missing record included. *)
Lemma deleteRecording_one_error (id : value) (env : Env) (d d' : Device) (e : error) :
  deleteRecording id env d = (d', Thrown e) → e = Error "Failed to delete recording".
Proof.
  rewrite deleteRecording_run. simpl.
  destruct (List.find _ _) as [r|]; [|by intros [= _ <-]].
  destruct (FileSystem_deleteAsync _ env d) as [d1 [[]|e1]]; [|by intros [= _ <-]].
  destruct (rejects env SetItem); [by intros [= _ <-]|done].
Qed.

Lemma ledger_updateRecording_exact (id : value) (updates : record) (env : Env)
  (d d' : Device) (o : outcome (option record)) :
  updateRecording id updates env d = (d', o) →
  rejects env GetItem = false →
  ledger d' = if rejects env SetItem then ledger d else rewritten id updates <$> ledger d.
Proof.
  rewrite updateRecording_run. intros Hrun Hread. rewrite Hread in Hrun. simpl in Hrun.
  destruct (rejects env SetItem).
  - by injection Hrun as <- _.
  - injection Hrun as <- _. unfold JSON_stringify, recordings_of.
    rewrite ledger_written. by rewrite <- !list_fmap_compose.
Qed.

Lemma rewritten_lookup (id : value) (updates : record) (o : gmap string json) (k : string) :
  rewritten id updates o !! k
  = if has_id id (revived o)
    then match updates !! k with Some v => stringify v | None => o !! k end
    else o !! k.
Proof.
  unfold rewritten. destruct (has_id id (revived o)).
  - rewrite lookup_persisted, lookup_spread.
    destruct (updates !! k) as [v|]; [done|].
    by rewrite <- lookup_persisted, persisted_revived.
  - by rewrite persisted_revived.
Qed.

Lemma rewritten_other (id : value) (updates : record) (o : gmap string json) :
  has_id id (revived o) = false → rewritten id updates o = o.
Proof. unfold rewritten. intros ->. apply persisted_revived. Qed.




Lemma get_revived_persisted (r : record) (k : string) (v : value) :
  r !! k = Some v →
  get (revived (persisted r)) k = from_option parse VUndefined (stringify v).
Proof.
  intros Hr. unfold get, revived. rewrite lookup_fmap, lookup_persisted, Hr. simpl.
  by destruct (stringify v).
Qed.

Lemma survives_json_primitive :
  (∀ s, survives_json (VStr s) = true)
  ∧ (∀ z, survives_json (VNum (Finite z)) = true)
  ∧ (∀ b, survives_json (VBool b) = true)
  ∧ survives_json VNull = true.
Proof.
  unfold survives_json. simpl. repeat split.
  - intros s. apply String.eqb_refl.
  - intros z. apply Z.eqb_refl.
  - intros b. by destruct b.
Qed.

(** C4, as the code has it.  After a [saveRecording] that returned a
    record with the identifier [id], where [id] is a value that comes back
    from JSON equal to itself under [===] (every string is one),
    [getRecordingById(id)], its read not rejected, finds that record, in
    the form in which it was persisted.  After a [deleteRecording(id)] that
    resolved, [getRecordingById(id)] resolves with [null], for every [id]
    and whether or not its read is rejected. *)
Theorem getRecordingById_after_save_and_delete :
  (∀ (uri : string) (metadata : record) (env env' : Env) (d d' : Device)
     (r : record) (id : value),
      saveRecording uri metadata env d = (d', Resolved r) →
      r !! "id" = Some id →
      survives_json id = true →
      rejects env' GetItem = false →
      getRecordingById id env' d' = (d', Resolved (Some (revived (persisted r)))))
  ∧ (∀ s : string, survives_json (VStr s) = true)
  ∧ (∀ (id : value) (env env' : Env) (d d' : Device),
      deleteRecording id env d = (d', Resolved true) →
      getRecordingById id env' d' = (d', Resolved None)).
Proof.
  split; [|split].
  - intros uri metadata env env' d d' r id Hsave Hid Hstable Hread.
    apply saveRecording_resolved in Hsave as [_ Hledger].
    rewrite getRecordingById_run, Hread. unfold recordings_of. rewrite Hledger. simpl.
    unfold has_id at 1. rewrite (get_revived_persisted _ _ _ Hid).
    unfold survives_json in Hstable. by rewrite Hstable.
  - apply survives_json_primitive.
  - intros id env env' d d' Hdelete.
    rewrite getRecordingById_run. destruct (rejects env' GetItem); [done|].
    rewrite deleteRecording_run in Hdelete. simpl in Hdelete.
    destruct (List.find _ _) as [r|]; [|done].
    destruct (FileSystem_deleteAsync _ env d) as [d1 [[]|e]]; [|done].
    destruct (rejects env SetItem); [done|].
    injection Hdelete as <-. rewrite recordings_of_written.
    destruct (rejects env GetItem).
    + done.
    + rewrite filter_revived_fixed. by rewrite find_filter_negb.
Qed.

Lemma getRecordingById_after_save_and_delete_witness :
  (∃ d' r,
     saveRecording "file:///cache/take.m4a" ∅ (quiet "C" "2024-05-03T08:00:00.000Z") two
     = (d', Resolved r)
     ∧ getRecordingById (VStr "C") (quiet "" "") d'
       = (d', Resolved (Some (revived (persisted r)))))
  ∧ (∃ d',
     deleteRecording (VStr "B") (quiet "" "") two = (d', Resolved true)
     ∧ getRecordingById (VStr "B") (quiet "" "") d' = (d', Resolved None)).
Proof.
  split.
  - destruct (saveRecording "file:///cache/take.m4a" ∅
                (quiet "C" "2024-05-03T08:00:00.000Z") two) as [d' [r|e]] eqn:Hsave.
    + exists d', r. split; [done|].
      apply (proj1 getRecordingById_after_save_and_delete _ _ _ _ _ _ _ _ Hsave);
        [|reflexivity|reflexivity].
      apply saveRecording_resolved in Hsave as [-> _]. reflexivity.
    + by vm_compute in Hsave.
  - destruct (deleteRecording (VStr "B") (quiet "" "") two) as [d' [[]|e]] eqn:Hdelete.
    + exists d'. split; [done|].
      by apply (proj2 (proj2 getRecordingById_after_save_and_delete) _ (quiet "" "") _ two).
    + by vm_compute in Hdelete.
    + by vm_compute in Hdelete.
Defined.

(** C4 as stated fails: a record saved with the caller's [id] [NaN] is not
    found by [getRecordingById(NaN)], and a record saved with a generated
    identifier is not found when the read of [getRecordingById] is
    rejected; both calls resolve with [null] right after the save. *)
Lemma getRecordingById_misses_saved :
  (∃ d' r,
     saveRecording "file:///cache/take.m4a" {[ "id" := VNum NaN ]}
       (quiet "C" "2024-05-03T08:00:00.000Z") two = (d', Resolved r)
     ∧ r !! "id" = Some (VNum NaN)
     ∧ getRecordingById (VNum NaN) (quiet "" "") d' = (d', Resolved None))
  ∧ (∃ d' r,
     saveRecording "file:///cache/take.m4a" ∅
       (quiet "C" "2024-05-03T08:00:00.000Z") two = (d', Resolved r)
     ∧ r !! "id" = Some (VStr "C")
     ∧ getRecordingById (VStr "C") (failing GetItem "" "") d' = (d', Resolved None)).
Proof.
  split.
  - destruct (saveRecording "file:///cache/take.m4a" {[ "id" := VNum NaN ]}
                (quiet "C" "2024-05-03T08:00:00.000Z") two) as [d' [r|e]] eqn:Hsave;
      [|by vm_compute in Hsave].
    exists d', r. split; [done|].
    apply saveRecording_resolved in Hsave as [-> Hledger].
    split; [reflexivity|].
    rewrite getRecordingById_run. unfold recordings_of. rewrite Hledger. reflexivity.
  - destruct (saveRecording "file:///cache/take.m4a" ∅
                (quiet "C" "2024-05-03T08:00:00.000Z") two) as [d' [r|e]] eqn:Hsave;
      [|by vm_compute in Hsave].
    exists d', r. split; [done|].
    apply saveRecording_resolved in Hsave as [-> _].
    split; [reflexivity|]. by rewrite getRecordingById_run.
Qed.

(** C5, as the code has it.  When no record of the ledger has the
    identifier [id] and the read of the ledger is not rejected:
    if the write is not rejected either, [updateRecording(id, updates)]
    does not reject, it writes the ledger back with the contents it had and
    resolves with [undefined]; if the write is rejected, the call rejects
    with ['Failed to update recording'] and the device is untouched. *)
Theorem updateRecording_unknown_id (id : value) (updates : record) (env : Env) (d : Device) :
  Forall (λ o, has_id id (revived o) = false) (ledger d) →
  rejects env GetItem = false →
  (rejects env SetItem = false →
     updateRecording id updates env d = (written (Ledger (ledger d)) d, Resolved None)
     ∧ ledger (written (Ledger (ledger d)) d) = ledger d)
  ∧ (rejects env SetItem = true →
     updateRecording id updates env d = (d, Thrown (Error "Failed to update recording"))).
Proof.
  intros Hunknown Hread. apply unknown_id_recordings in Hunknown.
  rewrite updateRecording_run, Hread. simpl. split; intros ->; [|done].
  rewrite (fmap_unknown_id _ _ _ Hunknown).
  rewrite (find_none_Forall _ _ Hunknown).
  unfold recordings_of. rewrite stringify_revived.
  split; [done|]. apply ledger_written.
Qed.

Lemma updateRecording_unknown_id_witness :
  (updateRecording (VStr "Z") {[ "duration" := VNum (Finite 42) ]} (quiet "" "") two
   = (written (Ledger (ledger two)) two, Resolved None)
   ∧ ledger (written (Ledger (ledger two)) two) = ledger two)
  ∧ updateRecording (VStr "Z") {[ "duration" := VNum (Finite 42) ]} (failing SetItem "" "") two
    = (two, Thrown (Error "Failed to update recording")).
Proof.
  split.
  - apply (updateRecording_unknown_id (VStr "Z") _ (quiet "" "") two);
      [repeat constructor|reflexivity|reflexivity].
  - apply (updateRecording_unknown_id (VStr "Z") _ (failing SetItem "" "") two);
      [repeat constructor|reflexivity|reflexivity].
Defined.

(** C5 as stated fails: with an identifier that no record has, a rejected
    write makes [updateRecording] reject, and a rejected read makes it
    overwrite a ledger of two records with the empty array. *)
Lemma updateRecording_unknown_id_rejections :
  Forall (λ o, has_id (VStr "Z") (revived o) = false) (ledger two)
  ∧ updateRecording (VStr "Z") {[ "duration" := VNum (Finite 42) ]} (failing SetItem "" "") two
    = (two, Thrown (Error "Failed to update recording"))
  ∧ ∃ d',
      updateRecording (VStr "Z") {[ "duration" := VNum (Finite 42) ]} (failing GetItem "" "") two
      = (d', Resolved None)
      ∧ length (ledger two) = 2%nat
      ∧ ledger d' = [].
Proof.
  split; [repeat constructor|]. split; [by rewrite updateRecording_run|].
  eexists. split; [by rewrite updateRecording_run|]. split; [done|]. apply ledger_written.
Qed.

(** C6, what the code does.  When no record of the ledger has the
    identifier [id], [deleteRecording(id)] rejects and leaves the device,
    hence the persisted ledger, as it was.  The error that reaches the
    caller is the one of every other failure of the function, not the
    error for a missing record that the body throws. *)
Theorem deleteRecording_unknown_id (id : value) (env : Env) (d : Device) :
  Forall (λ o, has_id id (revived o) = false) (ledger d) →
  deleteRecording id env d = (d, Thrown (Error "Failed to delete recording")).
Proof.
  intros Hunknown. apply unknown_id_recordings in Hunknown.
  rewrite deleteRecording_run. simpl.
  destruct (rejects env GetItem); [done|].
  by rewrite (find_none_Forall _ _ Hunknown).
Qed.

Lemma deleteRecording_unknown_id_witness :
  deleteRecording (VStr "Z") (quiet "" "") two
  = (two, Thrown (Error "Failed to delete recording")).
Proof.
  apply deleteRecording_unknown_id. repeat constructor.
Defined.

(** C7.  When [id] matches a record and the deletion of its blob fails,
    [deleteRecording(id)] rejects and the device is as before: nothing was
    written, the record is still in the ledger. *)
Theorem deleteRecording_blob_failure (id : value) (env : Env) (d d1 : Device)
  (r : record) (e : error) :
  List.find (has_id id) (recordings_of d) = Some r →
  FileSystem_deleteAsync (get r "uri") env d = (d1, Thrown e) →
  deleteRecording id env d = (d, Thrown (Error "Failed to delete recording")).
Proof.
  intros Hfind Hblob. rewrite deleteRecording_run. simpl.
  destruct (rejects env GetItem); [done|].
  rewrite Hfind, Hblob. by rewrite (deleteAsync_thrown _ _ _ _ _ Hblob).
Qed.

Lemma deleteRecording_blob_failure_witness :
  deleteRecording (VStr "A") (quiet "" "") two
  = (two, Thrown (Error "Failed to delete recording"))
  ∧ ids two = [Some (JStr "B"); Some (JStr "A")].
Proof.
  split; [|reflexivity].
  eapply (deleteRecording_blob_failure (VStr "A") (quiet "" "") two two).
  - reflexivity.
  - reflexivity.
Defined.




End lifecycle.


(* ===================================================================== *)
(** * The user service *)
(* ===================================================================== *)

Section auth_facts.
Import Auth.
Context {passwordEncoder : PasswordEncoder} {jwtUtil : JwtUtil}.
Context {Repo : Type} {userRepository : UserRepository Repo}.


(** C9.  When [register] answers 201, the document that it handed to the
    repository has the role ["ROLE_USER"], whatever role the request
    carried; it has the email, the user name and the identifier of the
    request and the encoded password. *)
Theorem register_role (user : UserModel) (repo repo' : Repo) (response : ResponseEntity) :
  register user repo = (repo', response) →
  statusCode response = 201 →
  ∃ stored,
    repo' = save repo stored
    ∧ getRole stored = Some "ROLE_USER"
    ∧ getEmail stored = getEmail user
    ∧ getUsername stored = getUsername user
    ∧ getId stored = getId user
    ∧ getPassword stored = encode (getPassword user).
Proof.
  unfold register. destruct (existsByEmail repo (getEmail user)).
  - by intros [= <- <-].
  - intros [= <- <-] _. by eexists.
Qed.

End auth_facts.

Section auth_runs.
Import Auth Sample.


Lemma register_role_witness :
  ∃ stored,
    (register (passwordEncoder := PrefixEncoder) (userRepository := ListRepository)
       (request "bob@example.org" "builder" (Some "ROLE_ADMIN")) [alice]).1
    = [alice; stored]
    ∧ getRole stored = Some "ROLE_USER".
Proof.
  destruct (register_role (passwordEncoder := PrefixEncoder) (userRepository := ListRepository)
              (request "bob@example.org" "builder" (Some "ROLE_ADMIN")) [alice] _ _
              eq_refl eq_refl) as (stored & Hrepo & Hrole & _).
  exists stored. split; [exact Hrepo|exact Hrole].
Defined.

Lemma find_app_fresh {A} (p : A → bool) (l : list A) (x : A) :
  existsb p l = false → p x = true → List.find p (l ++ [x])%list = Some x.
Proof.
  induction l as [|y l IH]; simpl; intros Hl Hx.
  - by rewrite Hx.
  - apply orb_false_iff in Hl as [-> Hl]. by apply IH.
Qed.

(** On the repository kept in a list, the user that a successful
    registration stored is the one that a lookup by email returns, and its
    role is ["ROLE_USER"]. *)
Lemma register_then_find (user : UserModel) (repo repo' : list UserModel)
  (response : ResponseEntity) :
  register (passwordEncoder := PrefixEncoder) (userRepository := ListRepository) user repo
  = (repo', response) →
  statusCode response = 201 →
  ∃ stored,
    findByEmail (UserRepository := ListRepository) repo' (getEmail user) = Some stored
    ∧ getRole stored = Some "ROLE_USER".
Proof.
  unfold register. simpl.
  destruct (existsb _ repo) eqn:Hfresh; [by intros [= <- <-]|].
  intros [= <- <-] _. eexists. split.
  - apply find_app_fresh; [done|]. unfold has_email. simpl. apply String.eqb_refl.
  - done.
Qed.

End auth_runs.


(* ===================================================================== *)
(** * More on the storage service: failures, files and round trips *)
(* ===================================================================== *)

Set Warnings "-clear-no-such-hyp".

Section storage_more.
Import JS Storage Layout Sample.

Ltac run :=
  unfold mbind, mret, Async_bind, Async_ret, try_catch, throw, platform in *;
  simpl in *.

Lemma ensureDirectoryExists_run (env : Env) (d : Device) :
  ensureDirectoryExists env d
  = if rejects env GetInfoAsync then (d, Thrown (PlatformError GetInfoAsync))
    else if bool_decide (directory env ∈ paths d) then (d, Resolved tt)
    else if rejects env MakeDirectoryAsync then (d, Thrown (PlatformError MakeDirectoryAsync))
    else (with_path (directory env) d, Resolved tt).
Proof.
  unfold ensureDirectoryExists, RECORDINGS_DIRECTORY, FileSystem_documentDirectory,
    FileSystem_getInfoAsync, FileSystem_makeDirectoryAsync, directory, with_path. run.
  destruct (rejects env GetInfoAsync); [done|].
  destruct (bool_decide _); simpl; [done|].
  by destruct (rejects env MakeDirectoryAsync).
Qed.

Lemma saveRecording_run (uri : string) (metadata : record) (env : Env) (d : Device) :
  saveRecording uri metadata env d
  = match ensureDirectoryExists env d with
    | (d1, Thrown e) => (d1, Thrown e)
    | (d1, Resolved _) =>
        let failed := Thrown (Error "Failed to save recording") in
        if rejects env CopyAsync then (d1, failed)
        else if negb (bool_decide (uri ∈ paths d1)) then (d1, failed)
        else
          let d2 := with_path (destination env) d1 in
          if rejects env GetItem then (d2, failed)
          else match entries d2 !! RECORDINGS_METADATA_KEY with
               | Some Unparsable => (d2, failed)
               | _ =>
                   if rejects env SetItem then (d2, failed)
                   else (written (Ledger (persisted (literal env metadata) :: ledger d2)) d2,
                         Resolved (literal env metadata))
               end
    end.
Proof.
  unfold saveRecording. unfold mbind at 1. unfold Async_bind at 1.
  destruct (ensureDirectoryExists env d) as [d1 [[]|e]] eqn:Hdir; [|done].
  unfold uuidv4, RECORDINGS_DIRECTORY, FileSystem_documentDirectory, Date_toISOString,
    FileSystem_copyAsync, AsyncStorage_getItem, AsyncStorage_setItem. run.
  destruct (rejects env CopyAsync); [done|].
  destruct (bool_decide (uri ∈ paths d1)); [|done]. simpl.
  destruct (rejects env GetItem); [done|].
  unfold ledger, with_path. simpl.
  destruct (entries d1 !! RECORDINGS_METADATA_KEY) as [[docs|]|] eqn:Hd; simpl; [| done |].
  - destruct (rejects env SetItem); [done|]. unfold written. simpl. do 3 f_equal.
    change ((λ o : gmap string json, parse <$> o) <$> docs) with (revived <$> docs).
    apply stringify_cons.
  - by destruct (rejects env SetItem).
Qed.

(** X1.  When [ensureDirectoryExists] (and so [initialize]) resolves, the
    recordings directory exists, nothing else changed on the device, and a
    second run resolves without touching the device: it does not call
    [makeDirectoryAsync] again, so it succeeds even where that call would
    be rejected. *)
Theorem ensureDirectoryExists_idempotent (env env' : Env) (d d' : Device) :
  ensureDirectoryExists env d = (d', Resolved tt) →
  (entries d' = entries d
   ∧ paths d' = {[directory env]} ∪ paths d)
  ∧ (documentDirectory env' = documentDirectory env →
     rejects env' GetInfoAsync = false →
     ensureDirectoryExists env' d' = (d', Resolved tt)).
Proof.
  rewrite ensureDirectoryExists_run. intros Hrun.
  assert (Hpost : entries d' = entries d ∧ paths d' = {[directory env]} ∪ paths d).
  { destruct (rejects env GetInfoAsync); [done|].
    destruct (bool_decide (directory env ∈ paths d)) eqn:Hdir.
    - injection Hrun as <-. apply bool_decide_eq_true in Hdir. split; [done|set_solver].
    - destruct (rejects env MakeDirectoryAsync); [done|]. by inversion Hrun. }
  split; [done|]. intros Hsame Hinfo.
  rewrite ensureDirectoryExists_run, Hinfo.
  assert (directory env' = directory env) as -> by (unfold directory; by rewrite Hsame).
  rewrite bool_decide_eq_true_2; [done|]. destruct Hpost as [_ ->]. set_solver.
Qed.

Lemma ensureDirectoryExists_idempotent_witness :
  ∃ d',
    ensureDirectoryExists (quiet "" "") fresh = (d', Resolved tt)
    ∧ paths d' = {[ "file:///data/recordings/" ]} ∪ paths fresh
    ∧ ensureDirectoryExists (failing MakeDirectoryAsync "" "") d' = (d', Resolved tt).
Proof.
  destruct (ensureDirectoryExists (quiet "" "") fresh) as [d' [[]|e]] eqn:Hrun;
    [|by vm_compute in Hrun].
  destruct (ensureDirectoryExists_idempotent _ (failing MakeDirectoryAsync "" "") _ _ Hrun)
    as [[_ Hpaths] Hagain].
  exists d'. split; [done|]. split; [exact Hpaths|]. by apply Hagain.
Defined.

(** X2.  [getRecordings] never rejects and never changes the device.  It
    resolves with the empty array when the read is rejected, when the entry
    was never written and when the entry cannot be parsed; otherwise with
    the parsed ledger. *)
Theorem getRecordings_fail_soft (env : Env) (d : Device) :
  ∃ recordings,
    getRecordings env d = (d, Resolved recordings)
    ∧ (rejects env GetItem = true
       ∨ entries d !! RECORDINGS_METADATA_KEY = None
       ∨ entries d !! RECORDINGS_METADATA_KEY = Some Unparsable →
       recordings = [])
    ∧ (∀ docs, rejects env GetItem = false →
         entries d !! RECORDINGS_METADATA_KEY = Some (Ledger docs) →
         recordings = revived <$> docs).
Proof.
  eexists. split; [apply getRecordings_run|]. unfold recordings_of, ledger. split.
  - intros [->|[->| ->]]; [done| |]; by destruct (rejects env GetItem).
  - by intros docs -> ->.
Qed.

Lemma getRecordings_fail_soft_witness :
  getRecordings (failing GetItem "" "") two = (two, Resolved [])
  ∧ (getRecordings (quiet "" "") two).2 = Resolved (revived <$> ledger two).
Proof.
  split.
  - destruct (getRecordings_fail_soft (failing GetItem "" "") two) as (rs & -> & Hempty & _).
    by rewrite Hempty; [|left].
  - destruct (getRecordings_fail_soft (quiet "" "") two) as (rs & -> & _ & Hdocs).
    simpl. f_equal. by apply Hdocs.
Defined.

Lemma find_first {A} (p : A → bool) (l : list A) (x : A) :
  List.find p l = Some x ↔
  ∃ l1 l2, l = (l1 ++ x :: l2)%list ∧ p x = true ∧ Forall (λ y, p y = false) l1.
Proof.
  split.
  - induction l as [|y l IH]; simpl; [done|].
    destruct (p y) eqn:Hy.
    + intros [= ->]. by exists [], l.
    + intros Hfind. destruct (IH Hfind) as (l1 & l2 & -> & Hx & Hl1).
      exists (y :: l1), l2. split; [done|]. split; [done|]. by constructor.
  - intros (l1 & l2 & -> & Hx & Hl1).
    induction Hl1 as [|y l1 Hy _ IH]; simpl; [by rewrite Hx|by rewrite Hy].
Qed.

(** X3.  [getRecordingById] never rejects and never changes the device.
    A record that it returns has the identifier asked for and is the first
    such record of the ledger; when it returns [null] and the read was not
    rejected, no record of the ledger has that identifier. *)
Theorem getRecordingById_first_match (id : value) (env : Env) (d : Device) :
  ∃ found,
    getRecordingById id env d = (d, Resolved found)
    ∧ (∀ r, found = Some r →
         ∃ before after,
           recordings_of d = (before ++ r :: after)%list
           ∧ has_id id r = true
           ∧ Forall (λ x, has_id id x = false) before)
    ∧ (found = None → rejects env GetItem = false →
       Forall (λ x, has_id id x = false) (recordings_of d)).
Proof.
  eexists. split; [apply getRecordingById_run|]. split.
  - intros r Hfound. destruct (rejects env GetItem); [done|]. by apply find_first.
  - intros Hnone Hread. rewrite Hread in Hnone. apply Forall_forall. intros x Hx.
    apply list_elem_of_In in Hx.
    by apply (find_none _ _ Hnone).
Qed.

Lemma getRecordingById_first_match_witness :
  ∃ r, getRecordingById (VStr "A") (quiet "" "") two = (two, Resolved (Some r))
       ∧ has_id (VStr "A") r = true.
Proof.
  destruct (getRecordingById_first_match (VStr "A") (quiet "" "") two)
    as (found & Hrun & Hsome & _).
  destruct found as [r|]; [|by vm_compute in Hrun].
  exists r. split; [done|].
  by destruct (Hsome r eq_refl) as (before & after & _ & Hid & _).
Defined.

Lemma ensureDirectoryExists_paths (env : Env) (d d' : Device) (o : outcome unit) :
  ensureDirectoryExists env d = (d', o) →
  entries d' = entries d ∧ paths d ⊆ paths d'
  ∧ (∀ e, o = Thrown e →
       d' = d ∧ (e = PlatformError GetInfoAsync ∨ e = PlatformError MakeDirectoryAsync)).
Proof.
  rewrite ensureDirectoryExists_run.
  destruct (rejects env GetInfoAsync); [intros [= <- <-]; naive_solver|].
  destruct (bool_decide _); [intros [= <- <-]; naive_solver|].
  destruct (rejects env MakeDirectoryAsync); intros [= <- <-]; [naive_solver|].
  split; [done|]. split; [set_solver|done].
Qed.

Lemma saveRecording_thrown (uri : string) (metadata : record) (env : Env)
  (d d' : Device) (e : error) :
  saveRecording uri metadata env d = (d', Thrown e) →
  entries d' = entries d
  ∧ paths d ⊆ paths d'
  ∧ (e = Error "Failed to save recording"
     ∨ e = PlatformError GetInfoAsync ∨ e = PlatformError MakeDirectoryAsync).
Proof.
  rewrite saveRecording_run.
  destruct (ensureDirectoryExists env d) as [d1 o] eqn:Hdir.
  apply ensureDirectoryExists_paths in Hdir as (Hentries & Hpaths & Hthrown).
  destruct o as [[]|e1].
  - simpl.
    destruct (rejects env CopyAsync); [intros [= <- <-]; naive_solver|].
    destruct (bool_decide (uri ∈ paths d1)); simpl; [|intros [= <- <-]; naive_solver].
    destruct (rejects env GetItem);
      [intros [= <- <-]; split; [done|]; split; [set_solver|by left]|].
    destruct (entries d1 !! RECORDINGS_METADATA_KEY) as [[docs|]|];
      try (destruct (rejects env SetItem); [|done]);
      intros [= <- <-]; (split; [done|]; split; [set_solver|by left]).
  - intros [= <- <-]. destruct (Hthrown e1 eq_refl) as [-> Hapi]. naive_solver.
Qed.

(** X4.  A call of [saveRecording] that rejects has written nothing to
    AsyncStorage (the ledger is as before) and has removed no file.  The
    error is ['Failed to save recording'], or the bare platform error when
    the directory check of the first line, outside the [try], fails. *)
Theorem saveRecording_failure_keeps_ledger (uri : string) (metadata : record) (env : Env)
  (d d' : Device) (e : error) :
  saveRecording uri metadata env d = (d', Thrown e) →
  entries d' = entries d
  ∧ ledger d' = ledger d
  ∧ paths d ⊆ paths d'
  ∧ (e = Error "Failed to save recording"
     ∨ e = PlatformError GetInfoAsync ∨ e = PlatformError MakeDirectoryAsync).
Proof.
  intros Hrun. destruct (saveRecording_thrown _ _ _ _ _ _ Hrun) as (Hentries & Hpaths & He).
  split; [done|]. split; [|done]. unfold ledger. by rewrite Hentries.
Qed.

Lemma saveRecording_failure_keeps_ledger_witness :
  ∃ d',
    saveRecording "file:///cache/take.m4a" ∅ (failing SetItem "C" "") two
    = (d', Thrown (Error "Failed to save recording"))
    ∧ entries d' = entries two.
Proof.
  destruct (saveRecording "file:///cache/take.m4a" ∅ (failing SetItem "C" "") two)
    as [d' [r|e]] eqn:Hrun; [by vm_compute in Hrun|].
  destruct (saveRecording_failure_keeps_ledger _ _ _ _ _ _ Hrun) as (Hentries & _ & _ & He).
  exists d'. split; [|exact Hentries].
  destruct He as [->|[->| ->]]; [done|by vm_compute in Hrun..].
Defined.

(** X5.  [saveRecording] of a source file that does not exist rejects and
    leaves the ledger as it was; the error is ['Failed to save recording']
    once the directory is in place. *)
Theorem saveRecording_missing_source (uri : string) (metadata : record) (env : Env)
  (d : Device) :
  uri ∉ paths d →
  uri ≠ directory env →
  ∃ d' e,
    saveRecording uri metadata env d = (d', Thrown e)
    ∧ ledger d' = ledger d
    ∧ (rejects env GetInfoAsync = false → rejects env MakeDirectoryAsync = false →
       e = Error "Failed to save recording").
Proof.
  intros Hsource Hdir.
  destruct (saveRecording uri metadata env d) as [d' [r|e]] eqn:Hrun.
  - exfalso. rewrite saveRecording_run, ensureDirectoryExists_run in Hrun.
    destruct (rejects env GetInfoAsync); [done|].
    destruct (bool_decide (directory env ∈ paths d)).
    + simpl in Hrun. destruct (rejects env CopyAsync); [done|].
      by rewrite bool_decide_eq_false_2 in Hrun.
    + destruct (rejects env MakeDirectoryAsync); [done|]. simpl in Hrun.
      destruct (rejects env CopyAsync); [done|].
      rewrite bool_decide_eq_false_2 in Hrun; [done|]. set_solver.
  - exists d', e. split; [done|].
    pose proof (saveRecording_thrown _ _ _ _ _ _ Hrun) as (Hentries & _ & _).
    split; [unfold ledger; by rewrite Hentries|].
    intros Hinfo Hmkdir. rewrite saveRecording_run, ensureDirectoryExists_run, Hinfo in Hrun.
    destruct (bool_decide (directory env ∈ paths d)); simpl in Hrun.
    + destruct (rejects env CopyAsync); [by injection Hrun|].
      rewrite bool_decide_eq_false_2 in Hrun by done. by injection Hrun.
    + rewrite Hmkdir in Hrun. simpl in Hrun.
      destruct (rejects env CopyAsync); [by injection Hrun|].
      rewrite bool_decide_eq_false_2 in Hrun by set_solver. by injection Hrun.
Qed.

Lemma saveRecording_missing_source_witness :
  ∃ d',
    saveRecording "file:///cache/gone.m4a" ∅ (quiet "C" "") two
    = (d', Thrown (Error "Failed to save recording"))
    ∧ ledger d' = ledger two.
Proof.
  destruct (saveRecording_missing_source "file:///cache/gone.m4a" ∅ (quiet "C" "") two)
    as (d' & e & Hrun & Hledger & He).
  - by vm_compute.
  - done.
  - exists d'. rewrite Hrun, (He eq_refl eq_refl). done.
Defined.



Lemma ensureDirectoryExists_quiet (env : Env) (d : Device) :
  rejects env GetInfoAsync = false →
  rejects env MakeDirectoryAsync = false →
  ∃ d1, ensureDirectoryExists env d = (d1, Resolved tt)
        ∧ entries d1 = entries d
        ∧ paths d1 = {[directory env]} ∪ paths d.
Proof.
  intros Hinfo Hmkdir. rewrite ensureDirectoryExists_run, Hinfo, Hmkdir.
  destruct (bool_decide (directory env ∈ paths d)) eqn:Hdir.
  - exists d. apply bool_decide_eq_true in Hdir. split; [done|]. split; [done|set_solver].
  - by eexists.
Qed.

(** X7.  When the copy has succeeded and the ledger then cannot be read,
    parsed or written, [saveRecording] rejects with the ledger unchanged
    while the copied blob stays in the recordings directory: there is no
    compensating delete. *)
Theorem saveRecording_orphaned_blob (uri : string) (metadata : record) (env : Env)
  (d : Device) :
  uri ∈ paths d →
  rejects env GetInfoAsync = false →
  rejects env MakeDirectoryAsync = false →
  rejects env CopyAsync = false →
  rejects env GetItem = true ∨ rejects env SetItem = true
  ∨ entries d !! RECORDINGS_METADATA_KEY = Some Unparsable →
  ∃ d',
    saveRecording uri metadata env d = (d', Thrown (Error "Failed to save recording"))
    ∧ entries d' = entries d
    ∧ destination env ∈ paths d'.
Proof.
  intros Hsource Hinfo Hmkdir Hcopy Hfail.
  destruct (ensureDirectoryExists_quiet env d Hinfo Hmkdir) as (d1 & Hdir & Hentries & Hpaths).
  rewrite saveRecording_run, Hdir. simpl. rewrite Hcopy.
  rewrite bool_decide_eq_true_2 by set_solver. simpl.
  exists (with_path (destination env) d1).
  split; [|split; [done|simpl; set_solver]].
  destruct (rejects env GetItem); [done|]. rewrite Hentries.
  destruct Hfail as [?|[Hset| ->]]; [done| |done].
  rewrite Hset. by destruct (entries d !! RECORDINGS_METADATA_KEY) as [[|]|].
Qed.

Lemma saveRecording_orphaned_blob_witness :
  ∃ d',
    saveRecording "file:///cache/take.m4a" ∅ (failing SetItem "C" "") two
    = (d', Thrown (Error "Failed to save recording"))
    ∧ ledger d' = ledger two
    ∧ "file:///data/recordings/recording_C.m4a" ∈ paths d'.
Proof.
  destruct (saveRecording_orphaned_blob "file:///cache/take.m4a" ∅ (failing SetItem "C" "") two)
    as (d' & Hrun & Hentries & Hblob).
  - by vm_compute.
  - done.
  - done.
  - done.
  - by right; left.
  - exists d'. split; [exact Hrun|]. split; [|exact Hblob].
    unfold ledger. by rewrite Hentries.
Defined.

(** X8.  The record that [saveRecording] returns keeps every property of
    [metadata] with the caller's value, a falsy [duration] or [size]
    included; [duration] and [size] are 0 and [analysisResult] is [null]
    only when [metadata] does not define them, and the record has no
    property besides those of [metadata] and the seven of the literal. *)
Theorem saveRecording_contents (uri : string) (metadata : record) (env : Env)
  (d d' : Device) (r : record) :
  saveRecording uri metadata env d = (d', Resolved r) →
  (∀ k v, metadata !! k = Some v → r !! k = Some v)
  ∧ (metadata !! "duration" = None → r !! "duration" = Some (VNum (Finite 0)))
  ∧ (metadata !! "size" = None → r !! "size" = Some (VNum (Finite 0)))
  ∧ (metadata !! "analysisResult" = None → r !! "analysisResult" = Some VNull)
  ∧ dom r = dom metadata ∪ list_to_set
      ["id"; "filename"; "uri"; "createdAt"; "duration"; "size"; "analysisResult"].
Proof.
  intros Hrun. apply saveRecording_resolved in Hrun as [-> _].
  split; [|split; [|split; [|split]]].
  - intros k v Hk. by rewrite lookup_spread, Hk.
  - intros Hk. rewrite lookup_spread, Hk. unfold get. by rewrite Hk.
  - intros Hk. rewrite lookup_spread, Hk. unfold get. by rewrite Hk.
  - intros Hk. by rewrite lookup_spread, Hk.
  - unfold spread. rewrite dom_union_L. by f_equal.
Qed.

Lemma saveRecording_contents_witness :
  ∃ d' r,
    saveRecording "file:///cache/take.m4a"
      {[ "duration" := VNull; "note" := VStr "dry cough" ]} (quiet "C" "") fresh
    = (d', Resolved r)
    ∧ r !! "duration" = Some VNull
    ∧ r !! "note" = Some (VStr "dry cough")
    ∧ r !! "size" = Some (VNum (Finite 0)).
Proof.
  destruct (saveRecording "file:///cache/take.m4a"
              {[ "duration" := VNull; "note" := VStr "dry cough" ]} (quiet "C" "") fresh)
    as [d' [r|e]] eqn:Hrun; [|by vm_compute in Hrun].
  destruct (saveRecording_contents _ _ _ _ _ _ Hrun) as (Hkeep & _ & Hsize & _).
  exists d', r. split; [done|]. split; [by apply Hkeep|]. split; [by apply Hkeep|].
  by apply Hsize.
Defined.

(** X9.  When [metadata] defines no [id], the generated identifier is new
    to the ledger and the identifiers of the ledger are pairwise distinct,
    they are still pairwise distinct after [saveRecording], with the new
    one in front. *)
Theorem saveRecording_fresh_id (uri : string) (metadata : record) (env : Env)
  (d d' : Device) (r : record) :
  saveRecording uri metadata env d = (d', Resolved r) →
  metadata !! "id" = None →
  Some (JStr (uuid env)) ∉ ids d →
  NoDup (ids d) →
  ids d' = Some (JStr (uuid env)) :: ids d ∧ NoDup (ids d').
Proof.
  intros Hrun Hid Hfresh Hnodup.
  apply saveRecording_resolved in Hrun as [-> Hledger].
  assert (ids d' = Some (JStr (uuid env)) :: ids d) as ->.
  { unfold ids. rewrite Hledger, fmap_cons. f_equal.
    by rewrite lookup_persisted, lookup_spread, Hid. }
  split; [done|]. by constructor.
Qed.

Lemma saveRecording_fresh_id_witness :
  ∃ d' r,
    saveRecording "file:///cache/take.m4a" ∅ (quiet "C" "") two = (d', Resolved r)
    ∧ ids d' = [Some (JStr "C"); Some (JStr "B"); Some (JStr "A")]
    ∧ NoDup (ids d').
Proof.
  destruct (saveRecording "file:///cache/take.m4a" ∅ (quiet "C" "") two)
    as [d' [r|e]] eqn:Hrun; [|by vm_compute in Hrun].
  destruct (saveRecording_fresh_id _ _ _ _ _ _ Hrun) as [Hids Hnodup].
  - done.
  - by vm_compute; intros Hin; repeat (apply elem_of_cons in Hin as [?|Hin]; [done|]);
      apply elem_of_nil in Hin.
  - repeat constructor; set_solver.
  - exists d', r. split; [done|]. split; [exact Hids|exact Hnodup].
Defined.


Lemma has_id_merged (id : value) (updates : record) (o : gmap string json) :
  updates !! "id" = None →
  has_id id (merged updates (revived o)) = has_id id (revived o).
Proof.
  intros Hid. unfold has_id, get, merged. f_equal. f_equal.
  unfold revived at 1. rewrite lookup_fmap, lookup_persisted, lookup_spread, Hid.
  rewrite <- lookup_persisted, persisted_revived.
  unfold revived. by rewrite lookup_fmap.
Qed.

Lemma has_id_spread (id : value) (updates : record) (r : record) :
  updates !! "id" = None → has_id id (spread r updates) = has_id id r.
Proof.
  intros Hid. unfold has_id, get. by rewrite lookup_spread, Hid.
Qed.

Lemma find_fmap_stable {A B} (p : A → bool) (q : B → bool) (f : A → B) (l : list A) :
  (∀ x, x ∈ l → q (f x) = p x) →
  List.find q (f <$> l) = f <$> List.find p l.
Proof.
  induction l as [|x l IH]; intros Hpq; [done|].
  rewrite fmap_cons. simpl. rewrite (Hpq x) by apply list_elem_of_here.
  destruct (p x); [done|]. apply IH. intros y Hy. apply Hpq. by apply list_elem_of_further.
Qed.





(** X12.  [updateRecording] with an empty [updates] object, its read not
    rejected, leaves the ledger and the files exactly as they were: parsing
    and printing the ledger again changes nothing. *)
Theorem updateRecording_empty_updates (id : value) (env : Env) (d d' : Device)
  (o : outcome (option record)) :
  updateRecording id ∅ env d = (d', o) →
  rejects env GetItem = false →
  ledger d' = ledger d ∧ paths d' = paths d.
Proof.
  intros Hrun Hread. split.
  - destruct (ledger_updateRecording _ _ _ _ _ _ Hrun Hread) as [->| ->]; [done|].
    rewrite <- (list_fmap_id (ledger d)) at 2. apply list_fmap_ext. intros _ x _. simpl.
    assert (spread (revived x) ∅ = revived x) as ->
      by (unfold spread; apply (left_id_L ∅ (∪))).
    destruct (has_id id (revived x)); apply persisted_revived.
  - rewrite updateRecording_run in Hrun. by destruct (rejects env SetItem); injection Hrun as <- _.
Qed.

Lemma updateRecording_empty_updates_witness :
  ledger (updateRecording (VStr "A") ∅ (quiet "" "") two).1 = ledger two.
Proof.
  destruct (updateRecording (VStr "A") ∅ (quiet "" "") two) as [d' o] eqn:Hrun.
  simpl. by destruct (updateRecording_empty_updates _ _ _ _ _ Hrun eq_refl) as [-> _].
Defined.

(** X13.  When AsyncStorage rejects the read of [updateRecording] and
    accepts its write, the call resolves with [undefined] and the entry is
    overwritten with the empty array: [getRecordings] swallowed the error
    and every record is lost. *)
Theorem updateRecording_lost_ledger (id : value) (updates : record) (env : Env) (d : Device) :
  rejects env GetItem = true →
  rejects env SetItem = false →
  ∃ d', updateRecording id updates env d = (d', Resolved None)
        ∧ ledger d' = []
        ∧ entries d' !! RECORDINGS_METADATA_KEY = Some (Ledger []).
Proof.
  intros Hread Hwrite. rewrite updateRecording_run, Hread, Hwrite. eexists.
  split; [done|]. split; [apply ledger_written|]. simpl. apply lookup_insert_eq.
Qed.

Lemma updateRecording_lost_ledger_witness :
  ∃ d',
    updateRecording (VStr "A") {[ "duration" := VNum (Finite 42) ]}
      (failing GetItem "" "") two = (d', Resolved None)
    ∧ length (ledger two) = 2%nat
    ∧ ledger d' = [].
Proof.
  destruct (updateRecording_lost_ledger (VStr "A") {[ "duration" := VNum (Finite 42) ]}
              (failing GetItem "" "") two) as (d' & Hrun & Hledger & _); [reflexivity..|].
  exists d'. split; [exact Hrun|]. split; [reflexivity|exact Hledger].
Defined.


Lemma deleteAsync_run (p : string) (env : Env) (d : Device) :
  p ∈ paths d → rejects env DeleteAsync = false →
  FileSystem_deleteAsync (VStr p) env d = (without_path p d, Resolved tt).
Proof.
  intros Hp Hdel. unfold FileSystem_deleteAsync, platform. rewrite Hdel.
  by rewrite bool_decide_eq_true_2.
Qed.

Lemma filter_revived (p : record → bool) (docs : list (gmap string json)) :
  List.filter p (revived <$> docs) = revived <$> List.filter (λ o, p (revived o)) docs.
Proof.
  induction docs as [|o docs IH]; [done|]. rewrite fmap_cons. simpl.
  destruct (p (revived o)); [by rewrite fmap_cons, IH|done].
Qed.

Lemma deleteRecording_quiet (id : value) (env : Env) (d : Device) (r : record)
  (p : string) :
  List.find (has_id id) (recordings_of d) = Some r →
  get r "uri" = VStr p →
  p ∈ paths d →
  (∀ api, rejects env api = false) →
  deleteRecording id env d
  = (written (Ledger (List.filter (λ o, negb (has_id id (revived o))) (ledger d)))
       (without_path p d),
     Resolved true).
Proof.
  intros Hfind Huri Hp Hquiet.
  rewrite deleteRecording_run, !Hquiet. simpl. rewrite Hfind, Huri.
  rewrite (deleteAsync_run _ _ _ Hp (Hquiet _)).
  unfold recordings_of. by rewrite filter_revived, stringify_revived.
Qed.

(** X14.  When [id] matches a record whose blob exists and the platform
    rejects no call, [deleteRecording] resolves with [true], the ledger
    keeps exactly the records with another identifier, in their order, and
    the file system loses exactly the blob of the first match. *)
Theorem deleteRecording_resolves (id : value) (env : Env) (d : Device) (r : record)
  (p : string) :
  List.find (has_id id) (recordings_of d) = Some r →
  get r "uri" = VStr p →
  p ∈ paths d →
  (∀ api, rejects env api = false) →
  ∃ d',
    deleteRecording id env d = (d', Resolved true)
    ∧ ledger d' = List.filter (λ o, negb (has_id id (revived o))) (ledger d)
    ∧ ledger d' `sublist_of` ledger d
    ∧ paths d' = paths d ∖ {[p]}.
Proof.
  intros Hfind Huri Hp Hquiet. eexists.
  split; [by apply (deleteRecording_quiet _ _ _ r p)|].
  rewrite ledger_written. split; [done|]. split; [|done].
  induction (ledger d) as [|o l IH]; simpl; [constructor|].
  destruct (has_id id (revived o)); by constructor.
Qed.

Lemma deleteRecording_resolves_witness :
  ∃ d',
    deleteRecording (VStr "B") (quiet "" "") two = (d', Resolved true)
    ∧ ids d' = [Some (JStr "A")]
    ∧ "file:///data/recordings/recording_B.m4a" ∉ paths d'.
Proof.
  edestruct (deleteRecording_resolves (VStr "B") (quiet "" "") two)
    as (d' & Hrun & Hledger & _ & Hpaths).
  - reflexivity.
  - reflexivity.
  - by vm_compute.
  - done.
  - exists d'. split; [exact Hrun|]. split.
    + unfold ids. rewrite Hledger. reflexivity.
    + rewrite Hpaths. set_solver.
Defined.

(** X15.  When the blob was deleted and the write of the ledger is then
    rejected, [deleteRecording] rejects with the record still in the ledger
    and its blob gone. *)
Theorem deleteRecording_blob_gone_record_kept (id : value) (env : Env) (d : Device)
  (r : record) (p : string) :
  List.find (has_id id) (recordings_of d) = Some r →
  get r "uri" = VStr p →
  p ∈ paths d →
  rejects env GetItem = false →
  rejects env DeleteAsync = false →
  rejects env SetItem = true →
  ∃ d',
    deleteRecording id env d = (d', Thrown (Error "Failed to delete recording"))
    ∧ entries d' = entries d
    ∧ p ∉ paths d'.
Proof.
  intros Hfind Huri Hp Hread Hdel Hwrite.
  rewrite deleteRecording_run, Hread, Hwrite. simpl. rewrite Hfind, Huri.
  rewrite (deleteAsync_run _ _ _ Hp Hdel). eexists. split; [done|].
  split; [done|]. simpl. set_solver.
Qed.

Lemma deleteRecording_blob_gone_record_kept_witness :
  ∃ d',
    deleteRecording (VStr "B") (failing SetItem "" "") two
    = (d', Thrown (Error "Failed to delete recording"))
    ∧ ids d' = [Some (JStr "B"); Some (JStr "A")]
    ∧ "file:///data/recordings/recording_B.m4a" ∉ paths d'.
Proof.
  edestruct (deleteRecording_blob_gone_record_kept (VStr "B") (failing SetItem "" "") two)
    as (d' & Hrun & Hentries & Hpaths).
  - reflexivity.
  - reflexivity.
  - by vm_compute.
  - done.
  - done.
  - done.
  - exists d'. split; [exact Hrun|]. split; [|exact Hpaths].
    unfold ids, ledger. rewrite Hentries. reflexivity.
Defined.

Lemma find_filter_disjoint {A} (p q : A → bool) (l : list A) :
  (∀ x, q x = true → p x = false) →
  List.find q (List.filter (λ x, negb (p x)) l) = List.find q l.
Proof.
  intros Hpq. induction l as [|x l IH]; [done|]. simpl.
  destruct (q x) eqn:Hq.
  - rewrite (Hpq x Hq). simpl. by rewrite Hq.
  - destruct (p x); simpl; [done|]. by rewrite Hq.
Qed.

Lemma has_id_strings (id id' : string) (r : record) :
  id ≠ id' → has_id (VStr id') r = true → has_id (VStr id) r = false.
Proof.
  unfold has_id. intros Hne Hid'. apply strict_eq_string in Hid' as ->. simpl.
  apply String.eqb_neq. congruence.
Qed.

(** X16.  A [deleteRecording] that resolved does not disturb the lookup
    of any other identifier: [getRecordingById] gives the same result
    before and after. *)
Theorem deleteRecording_keeps_others (id id' : string) (env env' : Env) (d d' : Device) :
  id ≠ id' →
  deleteRecording (VStr id) env d = (d', Resolved true) →
  rejects env' GetItem = false →
  ∃ found,
    getRecordingById (VStr id') env' d = (d, Resolved found)
    ∧ getRecordingById (VStr id') env' d' = (d', Resolved found).
Proof.
  intros Hne Hdelete Hread'. rewrite !getRecordingById_run, Hread'.
  eexists. split; [done|]. do 2 f_equal.
  rewrite deleteRecording_run in Hdelete. simpl in Hdelete.
  destruct (rejects env GetItem); [done|].
  destruct (List.find _ _) as [r|]; [|done].
  destruct (FileSystem_deleteAsync _ env d) as [d1 [[]|e]]; [|done].
  destruct (rejects env SetItem); [done|].
  injection Hdelete as <-. rewrite recordings_of_written, filter_revived_fixed.
  apply find_filter_disjoint. intros x. by apply has_id_strings.
Qed.

Lemma deleteRecording_keeps_others_witness :
  ∃ d' a,
    deleteRecording (VStr "B") (quiet "" "") two = (d', Resolved true)
    ∧ getRecordingById (VStr "A") (quiet "" "") two = (two, Resolved (Some a))
    ∧ getRecordingById (VStr "A") (quiet "" "") d' = (d', Resolved (Some a)).
Proof.
  destruct (deleteRecording (VStr "B") (quiet "" "") two) as [d' [[]|e]] eqn:Hdelete;
    [|by vm_compute in Hdelete..].
  destruct (deleteRecording_keeps_others "B" "A" (quiet "" "") (quiet "" "") two d')
    as (found & Hbefore & Hafter); [done..|].
  destruct found as [a|]; [|by vm_compute in Hbefore].
  by exists d', a.
Defined.

Lemma saveRecording_resolved_blob (uri : string) (metadata : record) (env : Env)
  (d d' : Device) (r : record) :
  saveRecording uri metadata env d = (d', Resolved r) →
  r = literal env metadata ∧ destination env ∈ paths d'.
Proof.
  rewrite saveRecording_run.
  destruct (ensureDirectoryExists env d) as [d1 [[]|e]]; [|done]. simpl.
  destruct (rejects env CopyAsync); [done|].
  destruct (bool_decide (uri ∈ paths d1)); [|done]. simpl.
  destruct (rejects env GetItem); [done|].
  destruct (entries d1 !! RECORDINGS_METADATA_KEY) as [[docs|]|]; [|done|];
    (destruct (rejects env SetItem); [done|]; intros [= <- <-]; split; [done|];
     simpl; set_solver).
Qed.

(** X17.  Deleting the record that [saveRecording] just returned, by its
    generated identifier, brings the ledger back to what it was before the
    save and removes the copied blob ([metadata] defining neither [id] nor
    [uri], the identifier being new to the ledger). *)
Theorem saveRecording_then_deleteRecording (uri : string) (metadata : record)
  (env env' : Env) (d d' : Device) (r : record) :
  saveRecording uri metadata env d = (d', Resolved r) →
  metadata !! "id" = None →
  metadata !! "uri" = None →
  Forall (λ o, has_id (VStr (uuid env)) (revived o) = false) (ledger d) →
  (∀ api, rejects env' api = false) →
  ∃ d'',
    deleteRecording (VStr (uuid env)) env' d' = (d'', Resolved true)
    ∧ ledger d'' = ledger d
    ∧ paths d'' = paths d' ∖ {[destination env]}.
Proof.
  intros Hsave Hid Huri Hfresh Hquiet.
  pose proof (saveRecording_resolved_blob _ _ _ _ _ _ Hsave) as [-> Hblob].
  apply saveRecording_resolved in Hsave as [_ Hledger].
  assert (Hhead : has_id (VStr (uuid env)) (revived (persisted (literal env metadata))) = true).
  { unfold has_id, get, revived.
    rewrite lookup_fmap, lookup_persisted. unfold literal.
    rewrite lookup_spread, Hid. simpl. apply String.eqb_refl. }
  eexists. split; [|split].
  - apply (deleteRecording_quiet _ _ _ (revived (persisted (literal env metadata)))
             (destination env)); [| |done..].
    + unfold recordings_of. rewrite Hledger, fmap_cons. simpl. by rewrite Hhead.
    + unfold get, revived. rewrite lookup_fmap, lookup_persisted. unfold literal.
      by rewrite lookup_spread, Huri.
  - rewrite ledger_written, Hledger. simpl. rewrite Hhead. simpl.
    clear -Hfresh. induction Hfresh as [|o l Ho _ IH]; [done|].
    simpl. by rewrite Ho, IH.
  - done.
Qed.

Lemma saveRecording_then_deleteRecording_witness :
  ∃ d' r d'',
    saveRecording "file:///cache/take.m4a" ∅ (quiet "C" "") two = (d', Resolved r)
    ∧ deleteRecording (VStr "C") (quiet "" "") d' = (d'', Resolved true)
    ∧ ledger d'' = ledger two.
Proof.
  destruct (saveRecording "file:///cache/take.m4a" ∅ (quiet "C" "") two)
    as [d' [r|e]] eqn:Hsave; [|by vm_compute in Hsave].
  edestruct (saveRecording_then_deleteRecording _ _ _ (quiet "" "") _ _ _ Hsave)
    as (d'' & Hdelete & Hledger & _).
  - reflexivity.
  - reflexivity.
  - repeat constructor.
  - done.
  - by exists d', r, d''.
Defined.

End storage_more.

(* ===================================================================== *)
(** * Registration followed by login *)
(* ===================================================================== *)

Section auth_more.
Import Auth.
Context {passwordEncoder : PasswordEncoder} {jwtUtil : JwtUtil}.
Context {Repo : Type} {userRepository : UserRepository Repo}.

End auth_more.

Section auth_more_runs.
Import Auth Sample.


End auth_more_runs.

(* ===================================================================== *)
(** * The screens: filter, meter and timer *)
(* ===================================================================== *)

Section screens.
Import JS Screens.

Lemma filter_sublist {A} (p : A → bool) (l : list A) : List.filter p l `sublist_of` l.
Proof.
  induction l as [|x l IH]; simpl; [constructor|].
  destruct (p x); by constructor.
Qed.

(** X19.  Whatever the filter, the history screen shows recordings of the
    list, in the order of the list; a filter other than ['analyzed'] and
    ['unanalyzed'] shows the whole list. *)
Theorem filteredRecordings_sublist (filterType : string)
  (recordings : list (gmap string value)) :
  filteredRecordings filterType recordings `sublist_of` recordings
  ∧ (filterType ≠ "analyzed" → filterType ≠ "unanalyzed" →
     filteredRecordings filterType recordings = recordings).
Proof.
  unfold filteredRecordings. split.
  - destruct (String.eqb filterType "analyzed"); [apply filter_sublist|].
    destruct (String.eqb filterType "unanalyzed"); [apply filter_sublist|done].
  - intros Ha Hu. apply String.eqb_neq in Ha, Hu. by rewrite Ha, Hu.
Qed.

Lemma filteredRecordings_sublist_witness :
  filteredRecordings "all" [ {[ "analyzed" := VBool true ]}; ∅ ]
  = [ {[ "analyzed" := VBool true ]}; ∅ ].
Proof.
  by apply (proj2 (filteredRecordings_sublist "all" [ {[ "analyzed" := VBool true ]}; ∅ ])).
Defined.

(** X20.  The filters ['analyzed'] and ['unanalyzed'] split the list:
    every recording is shown by exactly one of them, the first shows those
    whose [analyzed] is truthy and the second the others. *)
Theorem filteredRecordings_partition (recordings : list (gmap string value)) :
  (filteredRecordings "analyzed" recordings ++ filteredRecordings "unanalyzed" recordings)%list
    ≡ₚ recordings
  ∧ (length (filteredRecordings "analyzed" recordings)
     + length (filteredRecordings "unanalyzed" recordings) = length recordings)%nat
  ∧ Forall (λ r, truthy (get r "analyzed") = true) (filteredRecordings "analyzed" recordings)
  ∧ Forall (λ r, truthy (get r "analyzed") = false)
      (filteredRecordings "unanalyzed" recordings).
Proof.
  unfold filteredRecordings. simpl.
  assert (Hperm : (List.filter (λ r, truthy (get r "analyzed")) recordings
                   ++ List.filter (λ r, negb (truthy (get r "analyzed"))) recordings)%list
                  ≡ₚ recordings).
  { induction recordings as [|r rs IH]; simpl; [done|].
    destruct (truthy (get r "analyzed")); simpl.
    - by rewrite IH.
    - by rewrite <- Permutation_middle, IH. }
  split; [done|]. split; [by rewrite <- length_app, Hperm|].
  split; apply Forall_forall; intros r Hr; apply list_elem_of_In, filter_In in Hr as [_ Hr];
    [done|by apply negb_true_iff].
Qed.

(** X21.  The waveform meter keeps a sliding window: after a push the
    array has one level more, capped at [maxBars], it ends with the new
    level, and it is the tail of the former levels followed by the new
    one. *)
Theorem pushLevel_window {A} (newLevel : A) (prev : list A) :
  length (pushLevel newLevel prev) = (length prev + 1) `min` maxBars
  ∧ last (pushLevel newLevel prev) = Some newLevel
  ∧ pushLevel newLevel prev `suffix_of` (prev ++ [newLevel])%list.
Proof.
  unfold pushLevel, slice, maxBars. simpl.
  destruct (30 <? length (prev ++ [newLevel]))%nat eqn:Hlen.
  - apply Nat.ltb_lt in Hlen. rewrite length_app in Hlen. simpl in Hlen.
    split; [|split].
    + rewrite length_drop, length_app. simpl. lia.
    + rewrite length_app. simpl.
      rewrite drop_app_le by lia. rewrite last_app. simpl. done.
    + apply suffix_drop.
  - apply Nat.ltb_ge in Hlen. rewrite length_app in Hlen. simpl in Hlen.
    split; [|split].
    + rewrite length_app. simpl. lia.
    + apply last_snoc.
    + done.
Qed.

Lemma padStart_two_digits (n : Z) :
  (0 ≤ n < 100)%Z → String.length (padStart 2 "0" (pretty n)) = 2%nat.
Proof.
  intros Hn.
  assert (Hall : forallb (λ n : Z, Nat.eqb (String.length (padStart 2 "0" (pretty n))) 2)
                   (seqZ 0 100) = true) by (vm_compute; reflexivity).
  rewrite forallb_forall in Hall. apply Nat.eqb_eq, Hall, list_elem_of_In, elem_of_seqZ. lia.
Qed.

Lemma string_length_app (s t : string) :
  String.length (s ++ t) = (String.length s + String.length t)%nat.
Proof. induction s as [|c s IH]; simpl; [done|]. by rewrite IH. Qed.

Lemma toString_safe (n : Z) :
  (0 ≤ n < 2 ^ 53)%Z → toString n = Some (pretty n).
Proof.
  intros Hn. unfold toString, isSafeInteger.
  by rewrite (proj2 (Z.ltb_lt _ _)) by lia.
Qed.

(** X22.  For a whole number of seconds that is not negative and below
    2^53, the timer shows the minutes and the remaining seconds, each
    padded to two digits, around a colon; below one hundred minutes the
    text has five characters. *)
Theorem formatTime_fields (minutes seconds : Z) :
  (0 ≤ minutes)%Z → (0 ≤ seconds < 60)%Z →
  (60 * minutes + seconds < 2 ^ 53)%Z →
  formatTime (60 * minutes + seconds)
  = Some (padStart 2 "0" (pretty minutes) ++ ":" ++ padStart 2 "0" (pretty seconds))
  ∧ ((minutes < 100)%Z →
     String.length (padStart 2 "0" (pretty minutes) ++ ":" ++ padStart 2 "0" (pretty seconds))
     = 5%nat).
Proof.
  intros Hm Hs Hsafe. split.
  - unfold formatTime, isSafeInteger.
    rewrite (proj2 (Z.ltb_lt _ _)) by lia.
    replace ((60 * minutes + seconds) `div` 60)%Z with minutes
      by (apply Z.div_unique with seconds; lia).
    replace (Z.rem (60 * minutes + seconds) 60) with seconds
      by (rewrite Z.rem_mod_nonneg by lia; apply Z.mod_unique with minutes; lia).
    by rewrite !toString_safe by lia.
  - intros Hlt. rewrite !string_length_app.
    rewrite !padStart_two_digits by lia. done.
Qed.

Lemma formatTime_fields_witness :
  formatTime 3725 = Some "62:05" ∧ String.length "62:05" = 5%nat.
Proof.
  destruct (formatTime_fields 62 5) as [Hfields Hwidth]; [lia..|].
  split; [exact Hfields|]. apply Hwidth. lia.
Defined.

End screens.
